(** * ASCII video converter: the frame-to-text pipeline of [src/App.tsx]

    The development embeds the conversion cycle [convertToAscii] and the
    event handlers of the [App] component.  JavaScript numbers are IEEE-754
    binary64 values, modelled by Rocq's primitive floats, so that every
    rounding the code performs is the rounding the model performs. *)

From Stdlib Require Import ZArith Floats Uint63 String Ascii List Lia Bool.
From Stdlib Require Import Rbase Rfunctions Lra.
Import ListNotations.

Set Warnings "-inexact-float".
Local Open Scope Z_scope.

(** ** JavaScript values used by the source *)

Module JS.

(** An integer seen as a JavaScript number.  Exact below [2^53]. *)
Definition num (z : Z) : float := PrimFloat.of_uint63 (Uint63.of_Z z).

(** [Math.floor].  A finite non-zero [x] is [m * 2^(e - 2101)] with
    [0.5 <= |m| < 1], and [normfr_mantissa m] is the 53-bit integer
    [|m| * 2^53]; the integer part is read off by a shift. *)
Definition Math_floor (x : float) : float :=
  if PrimFloat.is_nan x || PrimFloat.is_infinity x || PrimFloat.is_zero x then x
  else
    let '(m, e) := PrimFloat.frshiftexp x in
    let M := PrimFloat.normfr_mantissa m in
    if (e <=? 2101)%uint63 then
      (if PrimFloat.get_sign x then (-1)%float else 0%float)
    else if (2154 <=? e)%uint63 then x
    else
      let k := (2154 - e)%uint63 in
      let q := (M >> k)%uint63 in
      if PrimFloat.get_sign x then
        (if ((q << k) =? M)%uint63 then (- PrimFloat.of_uint63 q)%float
         else (- PrimFloat.of_uint63 (q + 1)%uint63)%float)
      else PrimFloat.of_uint63 q.

(** The integer part of a finite number, truncated towards zero
    ([None] for NaN and the infinities). *)
Definition truncate (f : float) : option Z :=
  match Prim2SF f with
  | S754_zero _ => Some 0
  | S754_finite s m e =>
      Some (cond_Zopp s (if 0 <=? e then Zpos m * 2 ^ e else Zpos m / 2 ^ (- e)))
  | _ => None
  end.

(** [Some z] when the number is the integer [z]. *)
Definition integer_value (f : float) : option Z :=
  match Prim2SF f with
  | S754_zero _ => Some 0
  | S754_finite s m e =>
      if 0 <=? e then Some (cond_Zopp s (Zpos m * 2 ^ e))
      else if Zpos m mod 2 ^ (- e) =? 0 then Some (cond_Zopp s (Zpos m / 2 ^ (- e)))
      else None
  | _ => None
  end.

(** Conversion of a number to a Web IDL [long] (ECMAScript ToInt32):
    NaN and the infinities become 0, the rest is truncated and wrapped. *)
Definition to_long (f : float) : Z :=
  match truncate f with
  | Some z => (z + 2 ^ 31) mod 2 ^ 32 - 2 ^ 31
  | None => 0
  end.

(** [s[f]] on a string: the character at an integer index in range,
    [undefined] ([None]) otherwise. *)
Definition string_at (s : string) (f : float) : option ascii :=
  match integer_value f with
  | Some i => if i <? 0 then None else String.get (Z.to_nat i) s
  | None => None
  end.

(** [s += v] where [v] is a one-character string or [undefined]. *)
Definition append_value (s : string) (v : option ascii) : string :=
  match v with
  | Some c => s ++ String c EmptyString
  | None => s ++ "undefined"
  end.

(** [a[i]] on a [Uint8ClampedArray]: [undefined] out of range. *)
Definition typed_get (a : list Z) (i : Z) : option Z :=
  if i <? 0 then None else nth_error a (Z.to_nat i).

(** An array element used in arithmetic: [undefined] becomes NaN. *)
Definition to_number (v : option Z) : float :=
  match v with
  | Some z => num z
  | None => nan
  end.

(** Completion of a call that may throw. *)
Inductive completion (A : Type) : Type :=
| Normal (a : A)
| Throw (name : string).
Arguments Normal {A} a.
Arguments Throw {A} name.

End JS.

Import JS.

(** ** Constants of the module (lines 5-7) *)

Definition newline : ascii := "010"%char.

Definition ASCII_RAMP : string :=
  "`^" ++ String "034"%char
    ",:;Il!i~+_-?][}{1)(|\/tfjrxnuvczXYUJCLQ0OZmwqpdbkhao*#MW&8%B@$".

Definition DEFAULT_RESOLUTION : Z := 150.

Definition FONT_SIZE_ADJUST : float := 0.5.

(** ** The luminance quantizer (lines 80-81) *)

Definition gray (r g b : float) : float := (0.21 * r + 0.72 * g + 0.07 * b)%float.

Definition rampIndex (r g b : float) : float :=
  Math_floor ((gray r g b / 255) * (num (Z.of_nat (String.length ASCII_RAMP)) - 1))%float.

(** The quantizer on the three channel bytes of a pixel. *)
Definition quantize (r g b : Z) : float := rampIndex (num r) (num g) (num b).

(** ** The pixel loops (lines 71-85)

    The body of the inner loop computes a ramp index for the cell [(y, x)]
    and appends [ASCII_RAMP[rampIndex]]; the loops are written over the
    function [index_at] giving that index, which [convertToAscii]
    instantiates with [pixel_index]. *)

(** Lines 75-81: the ramp index of the pixel at column [x] of row [y]. *)
Definition pixel_index (imageData : list Z) (canvasWidth y x : Z) : float :=
  let offset := (y * canvasWidth + x) * 4 in
  let r := to_number (typed_get imageData offset) in
  let g := to_number (typed_get imageData (offset + 1)) in
  let b := to_number (typed_get imageData (offset + 2)) in
  rampIndex r g b.

(** [for (let x = ...; x < canvasWidth; x++)] with [n] iterations left. *)
Fixpoint row_loop (index_at : Z -> Z -> float) (y : Z) (n : nat) (x : Z)
    (asciiString : string) : string :=
  match n with
  | O => asciiString
  | S n' =>
      row_loop index_at y n' (x + 1)
        (append_value asciiString (string_at ASCII_RAMP (index_at y x)))
  end.

(** [for (let y = ...; y < canvasHeight; y++)] with [n] iterations left. *)
Fixpoint frame_loop (index_at : Z -> Z -> float) (canvasWidth : Z) (n : nat) (y : Z)
    (asciiString : string) : string :=
  match n with
  | O => asciiString
  | S n' =>
      frame_loop index_at canvasWidth n' (y + 1)
        (row_loop index_at y (Z.to_nat canvasWidth) 0 asciiString
           ++ String newline EmptyString)
  end.

(** Lines 71-85 as a whole: the text built for a [canvasWidth] by [rows] grid. *)
Definition assemble (index_at : Z -> Z -> float) (canvasWidth : Z) (rows : nat) : string :=
  frame_loop index_at canvasWidth rows 0 EmptyString.

(** Number of iterations of [for (i = 0; i < bound; i++)] for a bound that is
    an integer or NaN; [None] when the bound is infinite. *)
Definition loop_bound (bound : float) : option nat :=
  match Prim2SF bound with
  | S754_infinity false => None
  | _ => match truncate bound with
         | Some z => Some (Z.to_nat z)
         | None => Some O
         end
  end.

(** ** The component and the objects it holds *)

(** The [<video>] element: native size, attributes, and [drawn w h], the
    RGBA bytes that [getImageData(0, 0, w, h)] returns once the current
    frame has been drawn onto a [w] by [h] rectangle. *)
Record Video := {
  videoWidth : Z;
  videoHeight : Z;
  src : string;
  currentTime : Z;
  paused : bool;
  drawn : Z -> Z -> completion (list Z)
}.

(** The [<canvas>] element; [context2d] tells whether [getContext('2d')]
    returns a context. *)
Record Canvas := {
  width : Z;
  height : Z;
  context2d : bool
}.

(** React state of [App] (lines 35-39). *)
Record State := {
  videoSrc : option string;
  asciiArt : string;
  isPlaying : bool;
  resolution : Z;
  dimensions : Z * Z
}.

(** State, refs (lines 41-43), the pending animation-frame callbacks and
    the console. *)
Record World := {
  state : State;
  videoRef : option Video;
  canvasRef : option Canvas;
  animationFrameId : option Z;
  pending : list Z;
  next_handle : Z;
  console : list string
}.

Definition initial_state : State :=
  {| videoSrc := None; asciiArt := EmptyString; isPlaying := false;
     resolution := DEFAULT_RESOLUTION; dimensions := (0, 0) |}.

Definition setAsciiArt (s : string) (st : State) : State :=
  {| videoSrc := videoSrc st; asciiArt := s; isPlaying := isPlaying st;
     resolution := resolution st; dimensions := dimensions st |}.

Definition setResolution (r : Z) (st : State) : State :=
  {| videoSrc := videoSrc st; asciiArt := asciiArt st; isPlaying := isPlaying st;
     resolution := r; dimensions := dimensions st |}.

Definition setIsPlaying (p : bool) (st : State) : State :=
  {| videoSrc := videoSrc st; asciiArt := asciiArt st; isPlaying := p;
     resolution := resolution st; dimensions := dimensions st |}.

Definition setVideoSrc (u : option string) (st : State) : State :=
  {| videoSrc := u; asciiArt := asciiArt st; isPlaying := isPlaying st;
     resolution := resolution st; dimensions := dimensions st |}.

Definition setDimensions (d : Z * Z) (st : State) : State :=
  {| videoSrc := videoSrc st; asciiArt := asciiArt st; isPlaying := isPlaying st;
     resolution := resolution st; dimensions := d |}.

Definition with_state (st : State) (w : World) : World :=
  {| state := st; videoRef := videoRef w; canvasRef := canvasRef w;
     animationFrameId := animationFrameId w; pending := pending w;
     next_handle := next_handle w; console := console w |}.

Definition with_canvas (c : Canvas) (w : World) : World :=
  {| state := state w; videoRef := videoRef w; canvasRef := Some c;
     animationFrameId := animationFrameId w; pending := pending w;
     next_handle := next_handle w; console := console w |}.

Definition with_video (v : Video) (w : World) : World :=
  {| state := state w; videoRef := Some v; canvasRef := canvasRef w;
     animationFrameId := animationFrameId w; pending := pending w;
     next_handle := next_handle w; console := console w |}.

Definition console_error (msg : string) (w : World) : World :=
  {| state := state w; videoRef := videoRef w; canvasRef := canvasRef w;
     animationFrameId := animationFrameId w; pending := pending w;
     next_handle := next_handle w; console := console w ++ [msg] |}.

(** ** The conversion cycle (lines 51-90) *)

(** Conversion to a Web IDL [unsigned long], as the [width] and [height]
    setters of a canvas perform it. *)
Definition to_unsigned_long (f : float) : Z :=
  match truncate f with
  | Some z => z mod 2 ^ 32
  | None => 0
  end.

(** [ctx.getImageData(0, 0, sw, sh).data] after [drawImage]: the call throws
    an [IndexSizeError] when either side of the rectangle is zero. *)
Definition getImageData (v : Video) (sw sh : Z) : completion (list Z) :=
  if (sw =? 0) || (sh =? 0) then Throw "IndexSizeError"
  else drawn v (Z.abs sw) (Z.abs sh).

(** Line 60. *)
Definition aspectRatio (v : Video) : float :=
  (num (videoHeight v) / num (videoWidth v))%float.

(** Lines 61-62. *)
Definition canvasHeight (v : Video) (canvasWidth : Z) : float :=
  Math_floor (aspectRatio v * num canvasWidth * FONT_SIZE_ADJUST)%float.

Definition convertToAscii (w : World) : World :=
  match videoRef w, canvasRef w with
  | Some video, Some canvas =>
      if negb (context2d canvas) then w
      else
        let canvasWidth := resolution (state w) in
        let canvasHeight := canvasHeight video canvasWidth in
        let w1 :=
          with_canvas {| width := to_unsigned_long (num canvasWidth);
                         height := to_unsigned_long canvasHeight;
                         context2d := true |} w in
        match getImageData video (to_long (num canvasWidth)) (to_long canvasHeight) with
        | Normal imageData =>
            match loop_bound canvasHeight with
            | Some rows =>
                with_state
                  (setAsciiArt (assemble (pixel_index imageData canvasWidth) canvasWidth rows)
                     (state w1)) w1
            | None => w1
            end
        | Throw _ => console_error "Failed to get image data:" w1
        end
  | _, _ => w
  end.

(** ** The handlers of [App] (lines 45-49 and 92-133) and the controls *)

Definition with_frame (id : option Z) (p : list Z) (n : Z) (w : World) : World :=
  {| state := state w; videoRef := videoRef w; canvasRef := canvasRef w;
     animationFrameId := id; pending := p; next_handle := n; console := console w |}.

(** [requestAnimationFrame(animate)] returns a fresh handle and queues the
    callback; the result is stored in [animationFrameId.current]. *)
Definition requestAnimationFrame (w : World) : World :=
  with_frame (Some (next_handle w)) (pending w ++ [next_handle w]) (next_handle w + 1) w.

Definition cancelAnimationFrame (id : Z) (w : World) : World :=
  with_frame (animationFrameId w) (filter (fun h => negb (h =? id)) (pending w))
    (next_handle w) w.

(** [if (animationFrameId.current) cancelAnimationFrame(...)]: a handle is
    truthy when it is defined and not zero. *)
Definition cancel_current (w : World) : World :=
  match animationFrameId w with
  | Some id => if id =? 0 then w else cancelAnimationFrame id w
  | None => w
  end.

Definition set_paused (p : bool) (v : Video) : Video :=
  {| videoWidth := videoWidth v; videoHeight := videoHeight v; src := src v;
     currentTime := currentTime v; paused := p; drawn := drawn v |}.

Definition set_currentTime (t : Z) (v : Video) : Video :=
  {| videoWidth := videoWidth v; videoHeight := videoHeight v; src := src v;
     currentTime := t; paused := paused v; drawn := drawn v |}.

(** [videoRef.current?.play()] and [videoRef.current?.pause()]. *)
Definition video_play (w : World) : World :=
  match videoRef w with
  | Some v => with_video (set_paused false v) w
  | None => w
  end.

Definition video_pause (w : World) : World :=
  match videoRef w with
  | Some v => with_video (set_paused true v) w
  | None => w
  end.

(** Lines 45-49; [url] is the result of [URL.createObjectURL(file)]. *)
Definition handleFileChange (url : string) (w : World) : World :=
  with_state (setIsPlaying false (setVideoSrc (Some url) (state w))) w.

(** Lines 23-27: the file input calls [onFileSelect] only when a file was
    chosen. *)
Definition fileInput_onChange (files : list string) (w : World) : World :=
  match files with
  | file :: _ => handleFileChange file w
  | [] => w
  end.

(** Lines 92-95. *)
Definition animate (w : World) : World :=
  requestAnimationFrame (convertToAscii w).

(** Lines 98-106: the body of the effect. *)
Definition effect (w : World) : World :=
  if isPlaying (state w) then requestAnimationFrame (video_play w)
  else cancel_current (video_pause w).

(** Lines 107-111: the clean-up of the effect. *)
Definition effect_cleanup (w : World) : World := cancel_current w.

(** The effect depends on [isPlaying] and on [animate], which is rebuilt
    when [resolution] changes (lines 90, 95 and 112): after a handler has
    changed one of them the clean-up and then the effect run. *)
Definition commit (before : State) (w : World) : World :=
  if Bool.eqb (isPlaying before) (isPlaying (state w))
     && (resolution before =? resolution (state w))
  then w
  else effect (effect_cleanup w).

(** Lines 114-118: an empty [src] is falsy. *)
Definition togglePlayPause (w : World) : World :=
  match videoRef w with
  | Some v =>
      if String.eqb (src v) EmptyString then w
      else with_state (setIsPlaying (negb (isPlaying (state w))) (state w)) w
  | None => w
  end.

(** Lines 120-125. *)
Definition handleVideoLoaded (w : World) : World :=
  match videoRef w with
  | Some v =>
      convertToAscii
        (with_state (setDimensions (videoWidth v, videoHeight v) (state w)) w)
  | None => w
  end.

(** Lines 127-133. *)
Definition handleVideoEnded (w : World) : World :=
  let w1 := with_state (setIsPlaying false (state w)) w in
  match videoRef w1 with
  | Some v => convertToAscii (with_video (set_currentTime 0 v) w1)
  | None => w1
  end.

(** Modelled from the spec: the value sanitization of the range control
    declared at lines 192-200 ([min="50"], [max="300"]) is done by the
    browser and is not code of [src/]; per the spec an out-of-range value is
    clamped to the nearest configured bound. *)
Definition range_value (min max raw : Z) : Z := Z.max min (Z.min max raw).

Definition RESOLUTION_MIN : Z := 50.
Definition RESOLUTION_MAX : Z := 300.

(** Line 198: [onChange={(e) => setResolution(Number(e.target.value))}],
    where [e.target.value] is the value of the range control. *)
Definition resolution_onChange (raw : Z) (w : World) : World :=
  with_state
    (setResolution (range_value RESOLUTION_MIN RESOLUTION_MAX raw) (state w)) w.

(** What can happen to the mounted component. *)
Inductive event : Type :=
| FileChosen (files : list string)
| LoadedMetadata
| Ended
| PlayPauseClicked
| ResolutionMoved (raw : Z)
| AnimationFrame (id : Z)
| FrameDecoded (v : Video).

(** The browser runs the callback [id] if it is still queued. *)
Definition run_frame (id : Z) (w : World) : World :=
  if existsb (Z.eqb id) (pending w)
  then animate (with_frame (animationFrameId w)
                  (filter (fun h => negb (h =? id)) (pending w)) (next_handle w) w)
  else w.

(** The video element shows new media data; the refs and state stay. *)
Definition frame_decoded (v : Video) (w : World) : World :=
  match videoRef w with
  | Some _ => with_video v w
  | None => w
  end.

Definition handle (e : event) (w : World) : World :=
  match e with
  | FileChosen files => fileInput_onChange files w
  | LoadedMetadata => handleVideoLoaded w
  | Ended => handleVideoEnded w
  | PlayPauseClicked => togglePlayPause w
  | ResolutionMoved raw => resolution_onChange raw w
  | AnimationFrame id => run_frame id w
  | FrameDecoded v => frame_decoded v w
  end.

(** One event: the handler, then the effects of the commit. *)
Definition step (w : World) (e : event) : World :=
  commit (state w) (handle e w).

Definition run (w : World) (es : list event) : World := fold_left step es w.

(** The component once mounted: both elements exist, nothing is queued, and
    the effect has run once with [isPlaying = false]. *)
Definition mounted (v : Video) (c : Canvas) : World :=
  effect {| state := initial_state; videoRef := Some v; canvasRef := Some c;
            animationFrameId := None; pending := []; next_handle := 1;
            console := [] |}.

(** ** Notions used in the statements *)

Fixpoint count_newlines (s : string) : nat :=
  match s with
  | EmptyString => O
  | String c s' => ((if Ascii.eqb c newline then 1 else 0) + count_newlines s')%nat
  end.

Fixpoint last_char (s : string) : option ascii :=
  match s with
  | EmptyString => None
  | String c EmptyString => Some c
  | String _ s' => last_char s'
  end.

(** The integers [z, z+1, ..., z+n-1]. *)
Fixpoint zrange (z : Z) (n : nat) : list Z :=
  match n with
  | O => []
  | S k => z :: zrange (z + 1) k
  end.

(** The glyph at an integer index of the ramp. *)
Definition ramp_glyph (i : Z) : ascii :=
  match String.get (Z.to_nat i) ASCII_RAMP with
  | Some c => c
  | None => " "%char
  end.

(** The text of the row [y] of a grid of ramp indices. *)
Definition glyph_row (idx : Z -> Z -> Z) (canvasWidth y : Z) : string :=
  string_of_list_ascii
    (map (fun x => ramp_glyph (idx y x)) (zrange 0 (Z.to_nat canvasWidth))).

(** Rows laid out top to bottom, each followed by a newline. *)
Fixpoint frame_of_rows (rows : list string) : string :=
  match rows with
  | [] => EmptyString
  | r :: rest => r ++ String newline (frame_of_rows rest)
  end.

(** The text a cycle produces for a source and a width, if it produces one. *)
Definition conversion_outcome (v : Video) (canvasWidth : Z) : option string :=
  match getImageData v (to_long (num canvasWidth)) (to_long (canvasHeight v canvasWidth)) with
  | Normal imageData =>
      match loop_bound (canvasHeight v canvasWidth) with
      | Some rows => Some (assemble (pixel_index imageData canvasWidth) canvasWidth rows)
      | None => None
      end
  | Throw _ => None
  end.

(** The pixel buffer of a [W] by [H] read-back: four bytes per cell. *)
Definition image_data_ok (data : list Z) (W : Z) (H : nat) : Prop :=
  Z.of_nat (List.length data) = 4 * W * Z.of_nat H
  /\ Forall (fun c => 0 <= c <= 255) data.

(** The ramp index of a cell as an integer. *)
Definition pixel_level (data : list Z) (canvasWidth y x : Z) : Z :=
  match integer_value (pixel_index data canvasWidth y x) with
  | Some i => i
  | None => 0
  end.

(** The numerator of the luminance in hundredths: [100 * gray] without
    rounding. *)
Definition luminance (r g b : Z) : Z := 21 * r + 72 * g + 7 * b.

(** The index the formula gives in exact arithmetic. *)
Definition exact_index (r g b : Z) : Z := luminance r g b * 64 / 25500.

(** Non-negative values of the binary64 format: [+0], the positive finite
    numbers and [+infinity]. *)
Definition nonneg_sf (x : spec_float) : Prop :=
  match x with
  | S754_zero false | S754_infinity false | S754_finite false _ _ => True
  | _ => False
  end.

(** The real number a finite binary64 value stands for. *)
Definition value (x : float) : R :=
  match Prim2SF x with
  | S754_finite s m e => (IZR (cond_Zopp s (Zpos m)) * powerRZ 2 e)%R
  | _ => 0%R
  end.

(** What the handlers may rely on: handles are positive and fresh, and the
    only callback that can be queued is the one whose handle is stored. *)
Definition queue_ok (w : World) : Prop :=
  0 < next_handle w
  /\ (forall id, animationFrameId w = Some id -> 0 < id < next_handle w)
  /\ (pending w = [] \/ exists id, pending w = [id] /\ animationFrameId w = Some id).

(** The queue agrees with [isPlaying]: one callback while playing, none
    otherwise. *)
Definition scheduler_ok (w : World) : Prop :=
  queue_ok w
  /\ (isPlaying (state w) = true ->
      exists id, pending w = [id] /\ animationFrameId w = Some id)
  /\ (isPlaying (state w) = false -> pending w = []).

(** ** Sample inputs *)

(** The grid of the example in the specification: the rows of indices
    [[0, N-1, 2]] and [[1, 0, N-1]]. *)
Definition example_grid (y x : Z) : Z :=
  nth (Z.to_nat x) (nth (Z.to_nat y) [[0; 64; 2]; [1; 0; 64]] []) 0.

(** A source whose every frame is one solid colour. *)
Definition solid_frame (value : Z) (w h : Z) : completion (list Z) :=
  Normal (repeat value (Z.to_nat (4 * w * h))).

Definition hd_video : Video :=
  {| videoWidth := 1920; videoHeight := 1080; src := "blob:video";
     currentTime := 0; paused := true; drawn := solid_frame 128 |}.

Definition blank_canvas : Canvas :=
  {| width := 300; height := 150; context2d := true |}.

(** The component after the resolution control was moved to 50. *)
Definition narrow_world : World :=
  step (mounted hd_video blank_canvas) (ResolutionMoved 50).

(** A flat panoramic source. *)
Definition flat_video : Video :=
  {| videoWidth := 3840; videoHeight := 64; src := "blob:video";
     currentTime := 0; paused := true; drawn := solid_frame 128 |}.

(** A small source whose aspect ratio, 11/15, is not a binary fraction. *)
Definition small_video : Video :=
  {| videoWidth := 240; videoHeight := 176; src := "blob:video";
     currentTime := 0; paused := true; drawn := solid_frame 128 |}.

(** A canvas for which [getContext('2d')] returns [null]. *)
Definition no_context_canvas : Canvas :=
  {| width := 300; height := 150; context2d := false |}.

(** A video element whose metadata is not loaded yet: no native size, and
    nothing to draw. *)
Definition unloaded_video : Video :=
  {| videoWidth := 0; videoHeight := 0; src := EmptyString;
     currentTime := 0; paused := true; drawn := solid_frame 0 |}.

(** ** Checkers run by the proofs

    The quantizer is checked on all [256^3] channel triples.  Every triple
    lies on one diagonal [(r0 + d, g0 + d, b0 + d)] that starts on a face of
    the cube, so the checker walks the diagonals of the three faces and
    tests, along each, that the index is an integer of the ramp, that it is
    the index of exact arithmetic up to the rounding at a boundary, and that
    it does not decrease. *)

Fixpoint all_from (n : nat) (z : Z) (p : Z -> bool) : bool :=
  match n with
  | O => true
  | S k => p z && all_from k (z + 1) p
  end.

(** [rampIndex] with the ramp length evaluated. *)
Definition index64 (r g b : float) : float :=
  Math_floor ((gray r g b / 255) * 64)%float.

(** The integer of a number known to be one of 0, 1, ..., 63. *)
Definition small_int (f : float) : int :=
  ((PrimFloat.normfr_mantissa ((f + 64) / 128)%float >> 46) - 64)%uint63.

Definition index_ok (f : float) : bool :=
  let q := small_int f in
  (q <=? 63)%uint63 && PrimFloat.Leibniz.eqb f (PrimFloat.of_uint63 q).

(** [i] is the exact index for the luminance [lum], or one less where the
    exact quotient is an integer. *)
Definition exact_ok (i : float) (lum : int) : bool :=
  let q := small_int i in
  let ex := (lum * 64 / 25500)%uint63 in
  (q =? ex)%uint63 || (((lum mod 6375) =? 0)%uint63 && (q + 1 =? ex)%uint63).

Fixpoint diagonal (n : nat) (r g b prev : float) (lum : int) : bool :=
  match n with
  | O => true
  | S n' =>
      let i := index64 r g b in
      index_ok i && PrimFloat.leb prev i && exact_ok i lum
      && diagonal n' (r + 1)%float (g + 1)%float (b + 1)%float i (lum + 100)%uint63
  end.

Definition face_diagonals (u v : Z) : bool :=
  let n := Z.to_nat (256 - Z.max u v) in
  let fu := num u in
  let fv := num v in
  diagonal n (num 0) fu fv (num 0) (Uint63.of_Z (luminance 0 u v))
  && diagonal n fu (num 0) fv (num 0) (Uint63.of_Z (luminance u 0 v))
  && diagonal n fu fv (num 0) (num 0) (Uint63.of_Z (luminance u v 0)).

Definition faces_row (u : Z) : bool := all_from 256 0 (face_diagonals u).

(** The index at distance [d] along the diagonal from [(r0, g0, b0)]. *)
Definition on_diagonal (r0 g0 b0 d : Z) : float :=
  index64 (num (r0 + d)) (num (g0 + d)) (num (b0 + d)).

Definition table_entry_ok (i : Z) : bool :=
  match integer_value (num i), string_at ASCII_RAMP (num i) with
  | Some j, Some c =>
      (j =? i)
      && match String.get (Z.to_nat i) ASCII_RAMP with
         | Some c' => Ascii.eqb c c'
         | None => false
         end
      && negb (Ascii.eqb c newline)
  | _, _ => false
  end.

(** * Proofs *)

(** ** Ranges *)

Lemma all_from_spec (p : Z -> bool) (n : nat) :
  forall z, all_from n z p = true ->
  forall x, z <= x < z + Z.of_nat n -> p x = true.
Proof.
  induction n as [|n IH]; intros z H x Hx.
  - lia.
  - cbn [all_from] in H. apply andb_true_iff in H as [Hz Hrest].
    destruct (Z.eq_dec x z) as [->|Hne]; [assumption|].
    apply (IH (z + 1) Hrest). lia.
Qed.

(** ** Numbers of bytes *)

Lemma num_succ_check :
  all_from 256 0 (fun z => PrimFloat.Leibniz.eqb (num (z + 1)) (num z + 1)%float) = true.
Proof. vm_compute. reflexivity. Qed.

Lemma num_succ (z : Z) : 0 <= z < 256 -> num (z + 1) = (num z + 1)%float.
Proof.
  intros Hz. apply FloatAxioms.Leibniz.eqb_spec.
  exact (all_from_spec _ _ _ num_succ_check z ltac:(lia)).
Qed.

Lemma rampIndex_index64 (r g b : float) : rampIndex r g b = index64 r g b.
Proof. reflexivity. Qed.

Lemma index_ok_spec (f : float) :
  index_ok f = true -> exists i, 0 <= i <= 63 /\ f = num i.
Proof.
  unfold index_ok. intros H. apply andb_true_iff in H as [Hle Heq].
  apply Uint63.leb_spec in Hle. apply FloatAxioms.Leibniz.eqb_spec in Heq.
  exists (Uint63.to_Z (small_int f)). split.
  - pose proof (Uint63.to_Z_bounded (small_int f)) as Hb.
    change (Uint63.to_Z 63) with 63 in Hle. lia.
  - unfold num. rewrite Uint63.of_to_Z. exact Heq.
Qed.

(** ** The diagonal walk *)

Lemma luminance_step (r g b : Z) :
  0 <= r <= 255 -> 0 <= g <= 255 -> 0 <= b <= 255 ->
  (Uint63.of_Z (luminance r g b) + 100)%uint63
  = Uint63.of_Z (luminance (r + 1) (g + 1) (b + 1)).
Proof.
  intros Hr Hg Hb. apply Uint63.to_Z_inj.
  rewrite Uint63.add_spec, !Uint63.of_Z_spec. change (Uint63.to_Z 100) with 100.
  change wB with (2 ^ 63). unfold luminance.
  rewrite (Z.mod_small (21 * r + 72 * g + 7 * b)) by lia.
  rewrite !Z.mod_small by lia. lia.
Qed.

Lemma diagonal_spec (n : nat) :
  forall r0 g0 b0 prev,
    0 <= r0 -> 0 <= g0 -> 0 <= b0 ->
    r0 + Z.of_nat n <= 256 -> g0 + Z.of_nat n <= 256 -> b0 + Z.of_nat n <= 256 ->
    diagonal n (num r0) (num g0) (num b0) prev
      (Uint63.of_Z (luminance r0 g0 b0)) = true ->
    (0 < Z.of_nat n -> PrimFloat.leb prev (on_diagonal r0 g0 b0 0) = true)
    /\ (forall d, 0 <= d < Z.of_nat n ->
          index_ok (on_diagonal r0 g0 b0 d) = true
          /\ exact_ok (on_diagonal r0 g0 b0 d)
               (Uint63.of_Z (luminance (r0 + d) (g0 + d) (b0 + d))) = true)
    /\ (forall d, 0 <= d -> d + 1 < Z.of_nat n ->
          PrimFloat.leb (on_diagonal r0 g0 b0 d) (on_diagonal r0 g0 b0 (d + 1)) = true).
Proof.
  induction n as [|n IH]; intros r0 g0 b0 prev Hr Hg Hb Hrn Hgn Hbn H.
  - repeat split; intros; lia.
  - cbn [diagonal] in H.
    apply andb_true_iff in H as [H Hrest]. apply andb_true_iff in H as [H Hex].
    apply andb_true_iff in H as [Hok Hprev].
    rewrite <- !num_succ in Hrest by lia.
    rewrite luminance_step in Hrest by lia.
    apply IH in Hrest as [Hfirst [Hall Hstep]]; try lia.
    assert (E0 : on_diagonal r0 g0 b0 0 = index64 (num r0) (num g0) (num b0)).
    { unfold on_diagonal. rewrite !Z.add_0_r. reflexivity. }
    assert (Eshift : forall d, on_diagonal (r0 + 1) (g0 + 1) (b0 + 1) d
                               = on_diagonal r0 g0 b0 (d + 1)).
    { intros d. unfold on_diagonal.
      replace (r0 + 1 + d) with (r0 + (d + 1)) by lia.
      replace (g0 + 1 + d) with (g0 + (d + 1)) by lia.
      replace (b0 + 1 + d) with (b0 + (d + 1)) by lia. reflexivity. }
    split; [|split].
    + intros _. rewrite E0. exact Hprev.
    + intros d Hd. destruct (Z.eq_dec d 0) as [->|Hne].
      * rewrite E0, !Z.add_0_r. split; assumption.
      * specialize (Hall (d - 1) ltac:(lia)). rewrite Eshift in Hall.
        replace (d - 1 + 1) with d in Hall by lia.
        replace (r0 + 1 + (d - 1)) with (r0 + d) in Hall by lia.
        replace (g0 + 1 + (d - 1)) with (g0 + d) in Hall by lia.
        replace (b0 + 1 + (d - 1)) with (b0 + d) in Hall by lia. exact Hall.
    + intros d Hd0 Hd. destruct (Z.eq_dec d 0) as [->|Hne].
      * rewrite <- (Eshift 0). rewrite E0. apply Hfirst. lia.
      * replace (d + 1) with (d - 1 + 1 + 1) by lia.
        replace (on_diagonal r0 g0 b0 d) with (on_diagonal r0 g0 b0 (d - 1 + 1))
          by (f_equal; lia).
        rewrite <- !Eshift. apply Hstep; lia.
Qed.

Lemma diagonals_checked : all_from 256 0 faces_row = true.
Proof. vm_cast_no_check (eq_refl true). Qed.

Lemma face_diagonals_checked (u v : Z) :
  0 <= u <= 255 -> 0 <= v <= 255 -> face_diagonals u v = true.
Proof.
  intros Hu Hv.
  assert (H : faces_row u = true).
  { apply (all_from_spec faces_row 256 0 diagonals_checked). lia. }
  apply (all_from_spec (face_diagonals u) 256 0 H). lia.
Qed.

(** Every triple of bytes is reached by the walk: its index is one of the
    numbers 0..63, it is the exact index up to the rounding at a boundary,
    and moving one step up the diagonal does not decrease it. *)
Lemma cube_checked (r g b : Z) :
  0 <= r <= 255 -> 0 <= g <= 255 -> 0 <= b <= 255 ->
  index_ok (index64 (num r) (num g) (num b)) = true
  /\ exact_ok (index64 (num r) (num g) (num b)) (Uint63.of_Z (luminance r g b)) = true
  /\ (r < 255 -> g < 255 -> b < 255 ->
      PrimFloat.leb (index64 (num r) (num g) (num b))
        (index64 (num (r + 1)) (num (g + 1)) (num (b + 1))) = true).
Proof.
  intros Hr Hg Hb.
  assert (Hcase : exists r0 g0 b0 d,
             0 <= r0 /\ 0 <= g0 /\ 0 <= b0 /\ 0 <= d
             /\ r = r0 + d /\ g = g0 + d /\ b = b0 + d
             /\ d < 256 - Z.max r0 (Z.max g0 b0)
             /\ diagonal (Z.to_nat (256 - Z.max r0 (Z.max g0 b0)))
                  (num r0) (num g0) (num b0) (num 0)
                  (Uint63.of_Z (luminance r0 g0 b0)) = true).
  { assert (Hmin : (r <= g /\ r <= b) \/ (g <= r /\ g <= b) \/ (b <= r /\ b <= g)) by lia.
    destruct Hmin as [[H1 H2]|[[H1 H2]|[H1 H2]]].
    - pose proof (face_diagonals_checked (g - r) (b - r) ltac:(lia) ltac:(lia)) as F.
      unfold face_diagonals in F.
      apply andb_true_iff in F as [F _]. apply andb_true_iff in F as [F _].
      exists 0, (g - r), (b - r), r.
      replace (Z.max 0 (Z.max (g - r) (b - r))) with (Z.max (g - r) (b - r)) by lia.
      repeat split; try lia. exact F.
    - pose proof (face_diagonals_checked (r - g) (b - g) ltac:(lia) ltac:(lia)) as F.
      unfold face_diagonals in F.
      apply andb_true_iff in F as [F _]. apply andb_true_iff in F as [_ F].
      exists (r - g), 0, (b - g), g.
      replace (Z.max (r - g) (Z.max 0 (b - g))) with (Z.max (r - g) (b - g)) by lia.
      repeat split; try lia. exact F.
    - pose proof (face_diagonals_checked (r - b) (g - b) ltac:(lia) ltac:(lia)) as F.
      unfold face_diagonals in F.
      apply andb_true_iff in F as [_ F].
      exists (r - b), (g - b), 0, b.
      replace (Z.max (r - b) (Z.max (g - b) 0)) with (Z.max (r - b) (g - b)) by lia.
      repeat split; try lia. exact F. }
  destruct Hcase as [r0 [g0 [b0 [d [Hr0 [Hg0 [Hb0 [Hd [Er [Eg [Eb [Hlt F]]]]]]]]]]]].
  apply diagonal_spec in F as [_ [Hall Hstep]]; try lia.
  subst r g b. split; [|split].
  - exact (proj1 (Hall d ltac:(lia))).
  - exact (proj2 (Hall d ltac:(lia))).
  - intros Hr' Hg' Hb'. specialize (Hstep d ltac:(lia) ltac:(lia)).
    unfold on_diagonal in Hstep.
    replace (r0 + (d + 1)) with (r0 + d + 1) in Hstep by lia.
    replace (g0 + (d + 1)) with (g0 + d + 1) in Hstep by lia.
    replace (b0 + (d + 1)) with (b0 + d + 1) in Hstep by lia. exact Hstep.
Qed.

(** ** The 64 numbers the quantizer returns *)

Lemma table_checked : all_from 65 0 table_entry_ok = true.
Proof. vm_compute. reflexivity. Qed.

Lemma table_order_checked :
  all_from 64 0 (fun i => all_from 64 0 (fun j =>
    Bool.eqb (PrimFloat.leb (num i) (num j)) (i <=? j))) = true.
Proof. vm_compute. reflexivity. Qed.

Lemma table_entry (i : Z) :
  0 <= i <= 64 ->
  integer_value (num i) = Some i
  /\ exists c, string_at ASCII_RAMP (num i) = Some c
               /\ String.get (Z.to_nat i) ASCII_RAMP = Some c
               /\ c <> newline.
Proof.
  intros Hi. pose proof (all_from_spec _ _ _ table_checked i ltac:(lia)) as H.
  unfold table_entry_ok in H.
  destruct (integer_value (num i)) as [j|]; [|discriminate].
  destruct (string_at ASCII_RAMP (num i)) as [c|]; [|discriminate].
  repeat (apply andb_true_iff in H as [H ?]).
  apply Z.eqb_eq in H. subst j. split; [reflexivity|].
  exists c. split; [reflexivity|].
  destruct (String.get (Z.to_nat i) ASCII_RAMP) as [c'|]; [|discriminate].
  match goal with E : Ascii.eqb c c' = true |- _ => apply Ascii.eqb_eq in E; subst c' end.
  repeat split.
  intros ->. discriminate.
Qed.

Lemma table_order (i j : Z) :
  0 <= i <= 63 -> 0 <= j <= 63 ->
  PrimFloat.leb (num i) (num j) = true -> i <= j.
Proof.
  intros Hi Hj H.
  pose proof (all_from_spec _ _ _ table_order_checked i ltac:(lia)) as Hc.
  pose proof (all_from_spec _ _ _ Hc j ltac:(lia)) as Hij. cbv beta in Hij.
  rewrite H in Hij. apply Z.leb_le. destruct (i <=? j); [reflexivity|discriminate].
Qed.

(** ** The quantizer on bytes *)

Lemma quantize_value (r g b : Z) :
  0 <= r <= 255 -> 0 <= g <= 255 -> 0 <= b <= 255 ->
  exists i, 0 <= i <= 63 /\ quantize r g b = num i.
Proof.
  intros Hr Hg Hb. unfold quantize. rewrite rampIndex_index64.
  apply index_ok_spec. apply cube_checked; assumption.
Qed.

Lemma quantize_step (r g b i j : Z) :
  0 <= r < 255 -> 0 <= g < 255 -> 0 <= b < 255 ->
  0 <= i <= 63 -> 0 <= j <= 63 ->
  quantize r g b = num i -> quantize (r + 1) (g + 1) (b + 1) = num j ->
  i <= j.
Proof.
  intros Hr Hg Hb Hi Hj Ei Ej.
  apply table_order; try assumption.
  rewrite <- Ei, <- Ej. unfold quantize. rewrite !rampIndex_index64.
  apply cube_checked; lia.
Qed.

Lemma quantize_integer (r g b : Z) :
  0 <= r <= 255 -> 0 <= g <= 255 -> 0 <= b <= 255 ->
  exists i, 0 <= i <= 63 /\ quantize r g b = num i
            /\ integer_value (quantize r g b) = Some i.
Proof.
  intros Hr Hg Hb. destruct (quantize_value r g b Hr Hg Hb) as [i [Hi E]].
  exists i. repeat split; try lia; [exact E|].
  rewrite E. apply table_entry. lia.
Qed.

(** ** Claims about the quantizer *)

(** C1: for every RGB triple of bytes the quantizer returns an integer in
    [0, N-1], N the ramp length, and indexing the ramp with it yields a glyph
    (it is never out of bounds). *)
Theorem quantizer_in_bounds (r g b : Z) :
  0 <= r <= 255 -> 0 <= g <= 255 -> 0 <= b <= 255 ->
  exists i,
    integer_value (quantize r g b) = Some i
    /\ 0 <= i <= Z.of_nat (String.length ASCII_RAMP) - 1
    /\ string_at ASCII_RAMP (quantize r g b) = String.get (Z.to_nat i) ASCII_RAMP
    /\ string_at ASCII_RAMP (quantize r g b) <> None.
Proof.
  intros Hr Hg Hb. destruct (quantize_integer r g b Hr Hg Hb) as [i [Hi [E Ei]]].
  exists i. split; [exact Ei|].
  change (Z.of_nat (String.length ASCII_RAMP) - 1) with 64. split; [lia|].
  destruct (table_entry i ltac:(lia)) as [_ [c [Hc [Hget _]]]].
  rewrite E, Hc, Hget. split; [reflexivity|discriminate].
Qed.

Lemma quantizer_in_bounds_witness :
  (exists i,
     integer_value (quantize 255 255 255) = Some i
     /\ 0 <= i <= Z.of_nat (String.length ASCII_RAMP) - 1
     /\ string_at ASCII_RAMP (quantize 255 255 255) = String.get (Z.to_nat i) ASCII_RAMP
     /\ string_at ASCII_RAMP (quantize 255 255 255) <> None)
  /\ (exists i,
     integer_value (quantize 0 0 0) = Some i
     /\ 0 <= i <= Z.of_nat (String.length ASCII_RAMP) - 1
     /\ string_at ASCII_RAMP (quantize 0 0 0) = String.get (Z.to_nat i) ASCII_RAMP
     /\ string_at ASCII_RAMP (quantize 0 0 0) <> None).
Proof.
  split.
  - apply (quantizer_in_bounds 255 255 255); lia.
  - apply (quantizer_in_bounds 0 0 0); lia.
Defined.

(** C5: black maps to index 0, but white maps to index 63 = N-2 and not to
    N-1 = 64: [0.21*255 + 0.72*255 + 0.07*255] rounds to
    [254.99999999999997], so the scaled value stays below 64. *)
Theorem quantizer_endpoints :
  integer_value (quantize 0 0 0) = Some 0
  /\ gray (num 255) (num 255) (num 255) = 254.99999999999997%float
  /\ integer_value (quantize 255 255 255) = Some 63
  /\ Z.of_nat (String.length ASCII_RAMP) - 1 = 64.
Proof. repeat split; vm_compute; reflexivity. Qed.

(** C6: raising the three channels by the same amount never lowers the
    index. *)
Theorem quantizer_monotone (r g b d : Z) :
  0 <= d ->
  0 <= r -> 0 <= g -> 0 <= b ->
  r + d <= 255 -> g + d <= 255 -> b + d <= 255 ->
  exists i j,
    integer_value (quantize r g b) = Some i
    /\ integer_value (quantize (r + d) (g + d) (b + d)) = Some j
    /\ i <= j.
Proof.
  intros Hd. pattern d. apply natlike_ind; [| |exact Hd].
  - intros Hr Hg Hb Hr' Hg' Hb'.
    destruct (quantize_integer r g b ltac:(lia) ltac:(lia) ltac:(lia)) as [i [Hi [E Ei]]].
    exists i, i. rewrite !Z.add_0_r. repeat split; try assumption. lia.
  - intros k Hk IH Hr Hg Hb Hr' Hg' Hb'.
    destruct (IH Hr Hg Hb ltac:(lia) ltac:(lia) ltac:(lia)) as [i [j [Ei [Ej Hij]]]].
    destruct (quantize_integer (r + k) (g + k) (b + k)
                ltac:(lia) ltac:(lia) ltac:(lia)) as [j' [Hj' [E' Ej']]].
    destruct (quantize_integer (r + Z.succ k) (g + Z.succ k) (b + Z.succ k)
                ltac:(lia) ltac:(lia) ltac:(lia)) as [m [Hm [Em Eim]]].
    assert (j' = j) by congruence. subst j'.
    exists i, m. repeat split; try assumption.
    assert (j <= m); [|lia].
    apply (quantize_step (r + k) (g + k) (b + k)); try lia; try assumption.
    replace (r + k + 1) with (r + Z.succ k) by lia.
    replace (g + k + 1) with (g + Z.succ k) by lia.
    replace (b + k + 1) with (b + Z.succ k) by lia. exact Em.
Qed.

Lemma quantizer_monotone_witness :
  exists i j,
    integer_value (quantize 10 200 30) = Some i
    /\ integer_value (quantize (10 + 55) (200 + 55) (30 + 55)) = Some j
    /\ i <= j.
Proof. apply (quantizer_monotone 10 200 30 55); lia. Defined.

(** ** Strings *)

Lemma append_assoc (a b c : string) : ((a ++ b) ++ c = a ++ (b ++ c))%string.
Proof. induction a as [|x a IH]; cbn; [reflexivity|]. now rewrite IH. Qed.

Lemma append_empty_r (a : string) : (a ++ EmptyString)%string = a.
Proof. induction a as [|x a IH]; cbn; [reflexivity|]. now rewrite IH. Qed.

Lemma count_newlines_append (a b : string) :
  count_newlines (a ++ b) = (count_newlines a + count_newlines b)%nat.
Proof. induction a as [|x a IH]; cbn; [reflexivity|]. rewrite IH. lia. Qed.

Lemma last_char_append_char (a : string) (c : ascii) :
  last_char (a ++ String c EmptyString) = Some c.
Proof.
  induction a as [|x a IH]; cbn; [reflexivity|].
  destruct (a ++ String c EmptyString)%string eqn:E; [|exact IH].
  destruct a; discriminate.
Qed.

Lemma length_string_of_list_ascii (l : list ascii) :
  String.length (string_of_list_ascii l) = List.length l.
Proof. induction l as [|c l IH]; cbn; [reflexivity|]. now rewrite IH. Qed.

Lemma length_zrange (n : nat) : forall z, List.length (zrange z n) = n.
Proof. induction n as [|n IH]; intros z; cbn; [reflexivity|]. now rewrite IH. Qed.

Lemma In_zrange (n : nat) : forall z x, In x (zrange z n) -> z <= x < z + Z.of_nat n.
Proof.
  induction n as [|n IH]; intros z x H; cbn in H; [contradiction|].
  destruct H as [<-|H]; [lia|]. apply IH in H. lia.
Qed.

Lemma get_In (s : string) : forall n c,
  String.get n s = Some c -> In c (list_ascii_of_string s).
Proof.
  induction s as [|x s IH]; intros n c H; cbn in H; [discriminate|].
  destruct n as [|n]; cbn.
  - left. congruence.
  - right. exact (IH n c H).
Qed.

Lemma ramp_has_no_newline :
  forallb (fun c => negb (Ascii.eqb c newline)) (list_ascii_of_string ASCII_RAMP) = true.
Proof. vm_compute. reflexivity. Qed.

Lemma string_at_ramp_not_newline (f : float) (c : ascii) :
  string_at ASCII_RAMP f = Some c -> Ascii.eqb c newline = false.
Proof.
  unfold string_at. destruct (integer_value f) as [i|]; [|discriminate].
  destruct (i <? 0); [discriminate|]. intros H. apply get_In in H.
  pose proof (proj1 (forallb_forall _ _) ramp_has_no_newline c H) as Hc.
  now apply negb_true_iff in Hc.
Qed.

Lemma count_newlines_append_value (acc : string) (f : float) :
  count_newlines (append_value acc (string_at ASCII_RAMP f)) = count_newlines acc.
Proof.
  destruct (string_at ASCII_RAMP f) as [c|] eqn:E; cbn [append_value];
    rewrite count_newlines_append.
  - cbn. rewrite (string_at_ramp_not_newline f c E). lia.
  - cbn. lia.
Qed.

(** ** The loops *)

Lemma row_loop_newlines (index_at : Z -> Z -> float) (y : Z) (n : nat) :
  forall x acc, count_newlines (row_loop index_at y n x acc) = count_newlines acc.
Proof.
  induction n as [|n IH]; intros x acc; cbn [row_loop]; [reflexivity|].
  rewrite IH. apply count_newlines_append_value.
Qed.

Lemma frame_loop_newlines (index_at : Z -> Z -> float) (canvasWidth : Z) (n : nat) :
  forall y acc,
    count_newlines (frame_loop index_at canvasWidth n y acc)
    = (count_newlines acc + n)%nat.
Proof.
  induction n as [|n IH]; intros y acc; cbn [frame_loop]; [lia|].
  rewrite IH, count_newlines_append, row_loop_newlines. cbn. lia.
Qed.

Lemma frame_loop_last (index_at : Z -> Z -> float) (canvasWidth : Z) (n : nat) :
  forall y acc,
    last_char (frame_loop index_at canvasWidth (S n) y acc) = Some newline.
Proof.
  induction n as [|n IH]; intros y acc.
  - cbn [frame_loop]. apply last_char_append_char.
  - change (frame_loop index_at canvasWidth (S (S n)) y acc)
      with (frame_loop index_at canvasWidth (S n) (y + 1)
              (row_loop index_at y (Z.to_nat canvasWidth) 0 acc
                 ++ String newline EmptyString)).
    apply IH.
Qed.

Section Grid.

Variable idx : Z -> Z -> Z.

Let index_at (y x : Z) : float := num (idx y x).

Lemma row_loop_grid (y : Z) (n : nat) :
  forall x acc,
    (forall x', x <= x' < x + Z.of_nat n -> 0 <= idx y x' <= 64) ->
    row_loop index_at y n x acc
    = (acc ++ string_of_list_ascii (map (fun x => ramp_glyph (idx y x)) (zrange x n)))%string.
Proof.
  induction n as [|n IH]; intros x acc Hv; cbn [row_loop zrange map string_of_list_ascii].
  - now rewrite append_empty_r.
  - rewrite IH by (intros x' Hx'; apply Hv; lia).
    unfold index_at at 1.
    destruct (table_entry (idx y x) (Hv x ltac:(lia))) as [_ [c [Hc [Hget _]]]].
    rewrite Hc. cbn [append_value]. rewrite append_assoc. cbn.
    unfold ramp_glyph at 2. rewrite Hget. reflexivity.
Qed.

Lemma frame_loop_grid (canvasWidth : Z) (n : nat) :
  forall y acc,
    (forall y' x', y <= y' < y + Z.of_nat n -> 0 <= x' < canvasWidth ->
                   0 <= idx y' x' <= 64) ->
    frame_loop index_at canvasWidth n y acc
    = (acc ++ frame_of_rows (map (glyph_row idx canvasWidth) (zrange y n)))%string.
Proof.
  induction n as [|n IH]; intros y acc Hv; cbn [frame_loop zrange map frame_of_rows].
  - now rewrite append_empty_r.
  - rewrite IH by (intros y' x' Hy' Hx'; apply Hv; lia).
    rewrite row_loop_grid by (intros x' Hx'; apply Hv; lia).
    rewrite !append_assoc. reflexivity.
Qed.

End Grid.

(** ** The conversion cycle *)

Lemma loop_bound_truncate (f : float) (h : Z) :
  truncate f = Some h -> loop_bound f = Some (Z.to_nat h).
Proof.
  unfold loop_bound, truncate. destruct (Prim2SF f) as [s|s| |s m e]; try discriminate.
  - intros H. injection H as <-. reflexivity.
  - intros H. injection H as <-. reflexivity.
Qed.

Lemma getImageData_Normal (v : Video) (sw : Z) (f : float) (data : list Z) :
  getImageData v sw (to_long f) = Normal data ->
  exists h, truncate f = Some h /\ to_long f <> 0 /\ sw <> 0.
Proof.
  unfold getImageData. destruct (sw =? 0) eqn:Esw; [discriminate|].
  destruct (to_long f =? 0) eqn:Ef; [discriminate|]. intros _.
  apply Z.eqb_neq in Esw, Ef. unfold to_long in *.
  destruct (truncate f) as [h|]; [|contradiction]. exists h. auto.
Qed.

(** What a cycle that reads the pixels back does to the state. *)
Lemma convertToAscii_converts (w : World) (v : Video) (c : Canvas) (data : list Z) :
  videoRef w = Some v -> canvasRef w = Some c -> context2d c = true ->
  getImageData v (to_long (num (resolution (state w))))
    (to_long (canvasHeight v (resolution (state w)))) = Normal data ->
  exists h,
    truncate (canvasHeight v (resolution (state w))) = Some h
    /\ h <> 0
    /\ state (convertToAscii w)
       = setAsciiArt
           (assemble (pixel_index data (resolution (state w))) (resolution (state w))
              (Z.to_nat h))
           (state w).
Proof.
  intros Hv Hc Hctx Hdata.
  destruct (getImageData_Normal _ _ _ _ Hdata) as [h [Ht [Hnz _]]].
  exists h. split; [exact Ht|]. split.
  - intros ->. apply Hnz. unfold to_long. rewrite Ht. reflexivity.
  - unfold convertToAscii. rewrite Hv, Hc, Hctx. cbn [negb].
    rewrite Hdata, (loop_bound_truncate _ _ Ht). reflexivity.
Qed.

(** A cycle never touches anything of the state but the frame text. *)
Lemma convertToAscii_frame (w : World) :
  exists text, state (convertToAscii w) = setAsciiArt text (state w).
Proof.
  assert (Hid : state w = setAsciiArt (asciiArt (state w)) (state w))
    by (destruct (state w); reflexivity).
  unfold convertToAscii.
  destruct (videoRef w) as [v|]; [|eexists; exact Hid].
  destruct (canvasRef w) as [c|]; [|eexists; exact Hid].
  destruct (context2d c); cbn [negb]; [|eexists; exact Hid].
  destruct (getImageData _ _ _) as [data|err].
  - destruct (loop_bound _) as [rows|].
    + eexists. reflexivity.
    + eexists. exact Hid.
  - eexists. exact Hid.
Qed.

Lemma convertToAscii_videoRef (w : World) : videoRef (convertToAscii w) = videoRef w.
Proof.
  unfold convertToAscii.
  destruct (videoRef w) as [v|] eqn:Ev; [|exact Ev].
  destruct (canvasRef w) as [c|]; [|exact Ev].
  destruct (context2d c); cbn [negb]; [|exact Ev].
  destruct (getImageData _ _ _); [destruct (loop_bound _)|]; exact Ev.
Qed.

(** ** Claims about the assembled text *)

(** C4: for a [W] by [H] grid of ramp indices the loops produce exactly [H]
    rows, top to bottom, each made of the [W] glyphs [ASCII_RAMP[index]] from
    left to right and followed by a newline. *)
Theorem grid_assembler (idx : Z -> Z -> Z) (W : Z) (H : nat) :
  (forall y x, 0 <= y < Z.of_nat H -> 0 <= x < W ->
               0 <= idx y x <= Z.of_nat (String.length ASCII_RAMP) - 1) ->
  let rows := map (glyph_row idx W) (zrange 0 H) in
  assemble (fun y x => num (idx y x)) W H = frame_of_rows rows
  /\ List.length rows = H
  /\ (forall row, In row rows -> String.length row = Z.to_nat W).
Proof.
  intros Hv rows. change (Z.of_nat (String.length ASCII_RAMP) - 1) with 64 in Hv.
  repeat split.
  - unfold assemble. rewrite frame_loop_grid by (intros; apply Hv; lia). reflexivity.
  - unfold rows. now rewrite length_map, length_zrange.
  - intros row Hrow. unfold rows in Hrow. apply in_map_iff in Hrow as [y [<- _]].
    unfold glyph_row. now rewrite length_string_of_list_ascii, length_map, length_zrange.
Qed.

Lemma grid_assembler_witness :
  (forall y x, 0 <= y < Z.of_nat 2 -> 0 <= x < 3 ->
               0 <= example_grid y x <= Z.of_nat (String.length ASCII_RAMP) - 1)
  /\ (let rows := map (glyph_row example_grid 3) (zrange 0 2) in
      assemble (fun y x => num (example_grid y x)) 3 2 = frame_of_rows rows
      /\ List.length rows = 2%nat
      /\ (forall row, In row rows -> String.length row = Z.to_nat 3))
  /\ map (glyph_row example_grid 3) (zrange 0 2)
     = [String "`" (String "$" (String "034" EmptyString));
        String "^" (String "`" (String "$" EmptyString))].
Proof.
  assert (Hv : forall y x, 0 <= y < Z.of_nat 2 -> 0 <= x < 3 ->
               0 <= example_grid y x <= Z.of_nat (String.length ASCII_RAMP) - 1).
  { intros y x Hy Hx.
    assert (Ey : y = 0 \/ y = 1) by lia. assert (Ex : x = 0 \/ x = 1 \/ x = 2) by lia.
    destruct Ey as [->| ->]; destruct Ex as [->|[->| ->]]; vm_compute; split; discriminate. }
  split; [exact Hv|]. split; [exact (grid_assembler example_grid 3 2 Hv)|].
  vm_compute. reflexivity.
Defined.

(** C10: a cycle that reads the pixels back produces a text with exactly
    [H] newline characters, [H] the derived height, and the text ends with a
    newline: every row is terminated, the last one included. *)
Theorem frame_text_newlines (w : World) (v : Video) (c : Canvas) (data : list Z) :
  videoRef w = Some v -> canvasRef w = Some c -> context2d c = true ->
  getImageData v (to_long (num (resolution (state w))))
    (to_long (canvasHeight v (resolution (state w)))) = Normal data ->
  exists H,
    truncate (canvasHeight v (resolution (state w))) = Some H
    /\ count_newlines (asciiArt (state (convertToAscii w))) = Z.to_nat H
    /\ (0 < H -> last_char (asciiArt (state (convertToAscii w))) = Some newline).
Proof.
  intros Hv Hc Hctx Hdata.
  destruct (convertToAscii_converts w v c data Hv Hc Hctx Hdata) as [h [Ht [_ Hs]]].
  exists h. rewrite Hs. cbn [asciiArt setAsciiArt]. unfold assemble.
  split; [exact Ht|]. split.
  - rewrite frame_loop_newlines. reflexivity.
  - intros Hpos. destruct (Z.to_nat h) as [|n] eqn:En; [lia|]. apply frame_loop_last.
Qed.

Lemma frame_text_newlines_witness :
  videoRef narrow_world = Some hd_video
  /\ canvasRef narrow_world = Some blank_canvas
  /\ context2d blank_canvas = true
  /\ getImageData hd_video
       (to_long (num (resolution (state narrow_world))))
       (to_long (canvasHeight hd_video (resolution (state narrow_world))))
     = solid_frame 128 50 14
  /\ exists H,
       truncate (canvasHeight hd_video (resolution (state narrow_world))) = Some H
       /\ count_newlines (asciiArt (state (convertToAscii narrow_world))) = Z.to_nat H
       /\ (0 < H -> last_char (asciiArt (state (convertToAscii narrow_world)))
                    = Some newline).
Proof.
  assert (Hd : getImageData hd_video
       (to_long (num (resolution (state narrow_world))))
       (to_long (canvasHeight hd_video (resolution (state narrow_world))))
     = solid_frame 128 50 14) by reflexivity.
  repeat split; try reflexivity.
  exact (frame_text_newlines narrow_world hd_video blank_canvas _
           eq_refl eq_refl eq_refl Hd).
Defined.

Lemma convertToAscii_outcome (w : World) (v : Video) (c : Canvas) :
  videoRef w = Some v -> canvasRef w = Some c -> context2d c = true ->
  state (convertToAscii w)
  = match conversion_outcome v (resolution (state w)) with
    | Some text => setAsciiArt text (state w)
    | None => state w
    end
  /\ canvasRef (convertToAscii w)
     = Some {| width := to_unsigned_long (num (resolution (state w)));
               height := to_unsigned_long (canvasHeight v (resolution (state w)));
               context2d := true |}.
Proof.
  intros Hv Hc Hctx. unfold convertToAscii, conversion_outcome.
  rewrite Hv, Hc, Hctx. cbn [negb].
  destruct (getImageData _ _ _) as [data|err].
  - destruct (loop_bound _) as [rows|]; split; reflexivity.
  - split; reflexivity.
Qed.

(** C7: with the source frame and the width unchanged, a second cycle leaves
    the state, and so the frame text, exactly as the first one left it. *)
Theorem conversion_idempotent (w : World) :
  state (convertToAscii (convertToAscii w)) = state (convertToAscii w)
  /\ asciiArt (state (convertToAscii (convertToAscii w)))
     = asciiArt (state (convertToAscii w))
  /\ canvasRef (convertToAscii (convertToAscii w)) = canvasRef (convertToAscii w).
Proof.
  assert (H : state (convertToAscii (convertToAscii w)) = state (convertToAscii w)
              /\ canvasRef (convertToAscii (convertToAscii w))
                 = canvasRef (convertToAscii w)).
  { destruct (videoRef w) as [v|] eqn:Ev.
    2:{ assert (E : convertToAscii w = w) by (unfold convertToAscii; now rewrite Ev).
        rewrite !E. split; reflexivity. }
    destruct (canvasRef w) as [c|] eqn:Ec.
    2:{ assert (E : convertToAscii w = w) by (unfold convertToAscii; now rewrite Ev, Ec).
        rewrite !E. split; reflexivity. }
    destruct (context2d c) eqn:Ectx.
    2:{ assert (E : convertToAscii w = w)
          by (unfold convertToAscii; now rewrite Ev, Ec, Ectx).
        rewrite !E. split; reflexivity. }
    destruct (convertToAscii_outcome w v c Ev Ec Ectx) as [Hs Hcv].
    assert (Hres : resolution (state (convertToAscii w)) = resolution (state w)).
    { rewrite Hs. destruct (conversion_outcome _ _); reflexivity. }
    destruct (convertToAscii_outcome (convertToAscii w) v _
                (eq_trans (convertToAscii_videoRef w) Ev) Hcv eq_refl) as [Hs2 Hcv2].
    rewrite Hres in Hs2, Hcv2. split.
    - rewrite Hs2, Hs. destruct (conversion_outcome _ _); reflexivity.
    - rewrite Hcv2, Hcv. reflexivity. }
  destruct H as [Hs Hcv]. repeat split; [exact Hs| now rewrite Hs | exact Hcv].
Qed.

(** ** The state under the handlers *)

Lemma state_cancel_current (w : World) : state (cancel_current w) = state w.
Proof.
  unfold cancel_current. destruct (animationFrameId w) as [id|]; [|reflexivity].
  destruct (id =? 0); reflexivity.
Qed.

Lemma state_effect (w : World) : state (effect w) = state w.
Proof.
  unfold effect, video_play, video_pause.
  destruct (isPlaying (state w)).
  - destruct (videoRef w); reflexivity.
  - rewrite state_cancel_current. destruct (videoRef w); reflexivity.
Qed.

Lemma state_commit (before : State) (w : World) : state (commit before w) = state w.
Proof.
  unfold commit, effect_cleanup.
  destruct (_ && _); [reflexivity|]. now rewrite state_effect, state_cancel_current.
Qed.

Lemma resolution_convertToAscii (w : World) :
  resolution (state (convertToAscii w)) = resolution (state w).
Proof. destruct (convertToAscii_frame w) as [text ->]. reflexivity. Qed.

Lemma resolution_handle (e : event) (w : World) :
  resolution (state (handle e w))
  = match e with
    | ResolutionMoved raw => range_value RESOLUTION_MIN RESOLUTION_MAX raw
    | _ => resolution (state w)
    end.
Proof.
  destruct e as [files| | | |raw|id|v]; cbn [handle].
  - destruct files; reflexivity.
  - unfold handleVideoLoaded. destruct (videoRef w); [|reflexivity].
    now rewrite resolution_convertToAscii.
  - unfold handleVideoEnded. cbv zeta. cbn [videoRef with_state].
    destruct (videoRef w); [|reflexivity].
    now rewrite resolution_convertToAscii.
  - unfold togglePlayPause. destruct (videoRef w) as [v|]; [|reflexivity].
    destruct (String.eqb _ _); reflexivity.
  - reflexivity.
  - unfold run_frame. destruct (existsb _ _); [|reflexivity].
    unfold animate, requestAnimationFrame, with_frame. cbn [state].
    now rewrite resolution_convertToAscii.
  - unfold frame_decoded. destruct (videoRef w); reflexivity.
Qed.

Lemma resolution_mounted (v : Video) (c : Canvas) :
  resolution (state (mounted v c)) = DEFAULT_RESOLUTION.
Proof. unfold mounted. now rewrite state_effect. Qed.

Lemma resolution_run (es : list event) :
  forall w, RESOLUTION_MIN <= resolution (state w) <= RESOLUTION_MAX ->
            RESOLUTION_MIN <= resolution (state (run w es)) <= RESOLUTION_MAX.
Proof.
  induction es as [|e es IH]; intros w Hw; cbn [run fold_left]; [exact Hw|].
  apply IH. unfold step. rewrite state_commit, resolution_handle.
  destruct e; try exact Hw. unfold range_value, RESOLUTION_MIN, RESOLUTION_MAX in *. lia.
Qed.

(** C9: a value given to the resolution control outside [50, 300] becomes
    the nearest bound, and the width the conversion cycle uses stays within
    [50, 300] whatever happens to the mounted component. *)
Theorem resolution_clamped :
  (forall raw w,
      resolution (state (step w (ResolutionMoved raw)))
      = if raw <? 50 then 50 else if 300 <? raw then 300 else raw)
  /\ (forall v c es, 50 <= resolution (state (run (mounted v c) es)) <= 300).
Proof.
  split.
  - intros raw w. unfold step. rewrite state_commit, resolution_handle.
    unfold range_value, RESOLUTION_MIN, RESOLUTION_MAX.
    destruct (raw <? 50) eqn:E1; [apply Z.ltb_lt in E1; lia|].
    apply Z.ltb_ge in E1.
    destruct (300 <? raw) eqn:E2; [apply Z.ltb_lt in E2; lia|].
    apply Z.ltb_ge in E2. lia.
  - intros v c es. apply (resolution_run es). rewrite resolution_mounted.
    unfold RESOLUTION_MIN, RESOLUTION_MAX, DEFAULT_RESOLUTION. lia.
Qed.

(** ** Binary64 facts

    The primitive operations are specified by functions on mantissa and
    exponent; these lemmas read off class and sign, which is all that the
    sources of zero-area native size need. *)

Lemma fexp_53 (e : Z) : -1021 <= e -> fexp prec emax e = e - 53.
Proof. intros H. unfold fexp, SpecFloat.emin, prec, emax. lia. Qed.

Lemma digits2_pos_size (p : positive) : digits2_pos p = Pos.size p.
Proof. induction p as [p IH|p IH|]; cbn; [now rewrite IH|now rewrite IH|reflexivity]. Qed.

Lemma digits2_pos_bound (p : positive) :
  Zpos p < 2 ^ 53 -> 1 <= Zpos (digits2_pos p) <= 53.
Proof.
  intros H. split; [lia|]. rewrite digits2_pos_size.
  destruct (Z_le_gt_dec (Zpos (Pos.size p)) 53) as [Hle|Hgt]; [exact Hle|exfalso].
  pose proof (Pos.size_le p) as Hs.
  assert (Hpow : 2 ^ 54 <= 2 ^ Zpos (Pos.size p)) by (apply Z.pow_le_mono_r; lia).
  apply Pos2Z.pos_le_pos in Hs. rewrite Pos2Z.inj_pow in Hs.
  change (2 ^ 54) with (2 * 2 ^ 53) in Hpow. lia.
Qed.

Lemma digits2_pos_iter_xO (p k : positive) :
  Zpos (digits2_pos (Pos.iter xO p k)) = Zpos (digits2_pos p) + Zpos k.
Proof.
  induction k as [|k IH] using Pos.peano_ind.
  - cbn. lia.
  - rewrite Pos.iter_succ. cbn [digits2_pos]. lia.
Qed.

Lemma binary_round_aux_canonical (s : bool) (m : positive) (e : Z) :
  canonical_mantissa prec emax m e = true -> e <= 971 ->
  binary_round_aux prec emax s (Zpos m) e loc_Exact = S754_finite s m e.
Proof.
  intros Hc He. unfold canonical_mantissa in Hc. apply Z.eqb_eq in Hc.
  unfold binary_round_aux, shr_fexp. cbn [Zdigits2 shr_record_of_loc].
  rewrite Hc, Z.sub_diag. cbn [shr shr_m round_nearest_even loc_of_shr_record].
  cbn [Zdigits2]. rewrite Hc, Z.sub_diag. cbn [shr shr_m].
  replace (e <=? emax - prec) with true; [reflexivity|].
  symmetry. apply Z.leb_le. unfold emax, prec. lia.
Qed.

Lemma binary_round_small (s : bool) (p : positive) :
  Zpos p < 2 ^ 53 ->
  exists m e, binary_round prec emax s p 0 = S754_finite s m e.
Proof.
  intros Hp. pose proof (digits2_pos_bound p Hp) as Hd.
  unfold binary_round. rewrite Z.add_0_r, fexp_53 by lia.
  unfold shl_align. rewrite Z.sub_0_r.
  destruct (Zpos (digits2_pos p) - 53) as [|k|k] eqn:Ek; try lia.
  - eexists _, _. apply binary_round_aux_canonical; [|lia].
    unfold canonical_mantissa. apply Z.eqb_eq. rewrite Z.add_0_r, fexp_53 by lia. lia.
  - rewrite <- Ek. eexists _, _. apply binary_round_aux_canonical; [|lia].
    unfold canonical_mantissa. apply Z.eqb_eq.
    rewrite digits2_pos_iter_xO, fexp_53 by lia. lia.
Qed.

Lemma Prim2SF_num_pos (z : Z) :
  0 < z < 2 ^ 53 -> exists m e, Prim2SF (num z) = S754_finite false m e.
Proof.
  intros Hz. unfold num. rewrite FloatAxioms.of_uint63_spec, Uint63.of_Z_spec.
  rewrite Z.mod_small by (change wB with (2 ^ 63); lia).
  destruct z as [|p|p]; try lia. cbn [binary_normalize].
  apply binary_round_small. lia.
Qed.

Lemma Prim2SF_zero (x : float) : Prim2SF x = S754_zero false -> x = 0%float.
Proof. intros H. apply Prim2SF_inj. rewrite H. reflexivity. Qed.

Lemma Prim2SF_infinity (x : float) : Prim2SF x = S754_infinity false -> x = infinity.
Proof. intros H. apply Prim2SF_inj. rewrite H. reflexivity. Qed.

Lemma Prim2SF_nan (x : float) : Prim2SF x = S754_nan -> x = nan.
Proof. intros H. apply Prim2SF_inj. rewrite H. reflexivity. Qed.

Lemma nonneg_get_sign (x : float) : nonneg_sf (Prim2SF x) -> PrimFloat.get_sign x = false.
Proof.
  destruct (Prim2SF x) as [[]|[]| |[] m e] eqn:E; cbn [nonneg_sf]; try contradiction; intros _.
  - now rewrite (Prim2SF_zero x E).
  - now rewrite (Prim2SF_infinity x E).
  - unfold PrimFloat.get_sign, PrimFloat.is_zero. rewrite FloatAxioms.eqb_spec, E.
    change (Prim2SF PrimFloat.zero) with (S754_zero false). cbn.
    rewrite FloatAxioms.ltb_spec, E. change (Prim2SF PrimFloat.zero) with (S754_zero false). reflexivity.
Qed.

Lemma zero_area_height (v : Video) (W : Z) :
  videoWidth v = 0 \/ videoHeight v = 0 ->
  0 <= videoWidth v < 2 ^ 53 -> 0 <= videoHeight v < 2 ^ 53 -> 0 <= W < 2 ^ 53 ->
  to_long (canvasHeight v W) = 0.
Proof.
  intros Hz Hw Hh HW. unfold canvasHeight, aspectRatio.
  assert (HWc : Prim2SF (num W) = S754_zero false
                \/ exists m e, Prim2SF (num W) = S754_finite false m e).
  { destruct (Z.eq_dec W 0) as [->|Hne]; [left; reflexivity|].
    right. apply Prim2SF_num_pos. lia. }
  destruct (Z.eq_dec (videoWidth v) 0) as [Ew|Ew].
  - rewrite Ew.
    destruct (Z.eq_dec (videoHeight v) 0) as [Eh|Eh].
    + rewrite Eh. change (num 0 / num 0)%float with nan.
      assert (E : (nan * num W)%float = nan).
      { apply Prim2SF_nan. rewrite FloatAxioms.mul_spec. reflexivity. }
      rewrite E. reflexivity.
    + assert (E : (num (videoHeight v) / num 0)%float = infinity).
      { apply Prim2SF_infinity. rewrite FloatAxioms.div_spec.
        destruct (Prim2SF_num_pos (videoHeight v) ltac:(lia)) as [m [e ->]]. reflexivity. }
      rewrite E. destruct HWc as [HWz|[m [e HWf]]].
      * assert (E2 : (infinity * num W)%float = nan).
        { apply Prim2SF_nan. rewrite FloatAxioms.mul_spec, HWz. reflexivity. }
        rewrite E2. reflexivity.
      * assert (E2 : (infinity * num W)%float = infinity).
        { apply Prim2SF_infinity. rewrite FloatAxioms.mul_spec, HWf. reflexivity. }
        rewrite E2. reflexivity.
  - assert (Eh : videoHeight v = 0) by (destruct Hz; [contradiction|assumption]).
    rewrite Eh.
    assert (E : (num 0 / num (videoWidth v))%float = 0%float).
    { apply Prim2SF_zero. rewrite FloatAxioms.div_spec.
      destruct (Prim2SF_num_pos (videoWidth v) ltac:(lia)) as [m [e ->]]. reflexivity. }
    rewrite E.
    assert (E2 : (0 * num W)%float = 0%float).
    { apply Prim2SF_zero. rewrite FloatAxioms.mul_spec.
      destruct HWc as [->|[m [e ->]]]; reflexivity. }
    rewrite E2. reflexivity.
Qed.

(** ** Exact values of the binary64 operations

    [Math.floor] is its integer part on the non-negative numbers; a rounded
    quotient or product of normal numbers is within one unit in the last
    place of the exact one.  The values are compared as real numbers. *)

(** The number of binary digits of a mantissa. *)
Lemma digits2_pos_range (p : positive) :
  2 ^ (Zpos (digits2_pos p) - 1) <= Zpos p < 2 ^ Zpos (digits2_pos p).
Proof.
  rewrite digits2_pos_size.
  pose proof (Pos.size_gt p) as Hgt. pose proof (Pos.size_le p) as Hle.
  apply Pos2Z.pos_lt_pos in Hgt. apply Pos2Z.pos_le_pos in Hle.
  rewrite Pos2Z.inj_pow in Hgt, Hle.
  replace (2 ^ Zpos (Pos.size p)) with (2 * 2 ^ (Zpos (Pos.size p) - 1)) in Hle.
  2:{ rewrite <- Z.pow_succ_r by lia. f_equal. lia. }
  lia.
Qed.

Lemma iter_xO_value (p k : positive) : Zpos (Pos.iter xO p k) = Zpos p * 2 ^ Zpos k.
Proof.
  induction k as [|k IH] using Pos.peano_ind.
  - cbn. lia.
  - rewrite Pos.iter_succ, Pos2Z.inj_xO, IH, Pos2Z.inj_succ, Z.pow_succ_r by lia. lia.
Qed.

(** Every binary64 value has a canonical mantissa. *)
Lemma valid_finite (x : float) (s : bool) (m : positive) (e : Z) :
  Prim2SF x = S754_finite s m e ->
  fexp prec emax (Zpos (digits2_pos m) + e) = e /\ e <= 971.
Proof.
  intros E. pose proof (Prim2SF_valid x) as H. rewrite E in H.
  cbn [valid_binary] in H. unfold bounded, canonical_mantissa in H.
  apply andb_prop in H. destruct H as [H1 H2].
  apply Z.eqb_eq in H1. apply Z.leb_le in H2. split; [exact H1|exact H2].
Qed.

(** An integer below [2^53] is represented exactly, with a mantissa of
    53 bits. *)
Lemma Prim2SF_num (z : Z) :
  0 < z < 2 ^ 53 ->
  exists k, 0 <= k <= 52 /\ 2 ^ 52 <= z * 2 ^ k < 2 ^ 53
            /\ Prim2SF (num z) = S754_finite false (Z.to_pos (z * 2 ^ k)) (- k).
Proof.
  intros Hz. unfold num. rewrite FloatAxioms.of_uint63_spec, Uint63.of_Z_spec.
  rewrite Z.mod_small by (change wB with (2 ^ 63); lia).
  destruct z as [|p|p]; try lia. cbn [binary_normalize].
  pose proof (digits2_pos_bound p ltac:(lia)) as Hd.
  pose proof (digits2_pos_range p) as Hr.
  unfold binary_round. rewrite Z.add_0_r, fexp_53 by lia.
  unfold shl_align. rewrite Z.sub_0_r.
  destruct (Zpos (digits2_pos p) - 53) as [|k|k] eqn:Ek; try lia.
  - exists 0. assert (Ed : Zpos (digits2_pos p) = 53) by lia. rewrite Ed in Hr.
    split; [lia|]. change (2 ^ 0) with 1. rewrite Z.mul_1_r. split; [exact Hr|].
    cbn [Z.to_pos Z.opp].
    apply binary_round_aux_canonical; [|lia].
    unfold canonical_mantissa. apply Z.eqb_eq. rewrite Z.add_0_r, fexp_53 by lia. lia.
  - exists (Zpos k). assert (Ed : Zpos (digits2_pos p) = 53 - Zpos k) by lia.
    rewrite Ed in Hr. split; [lia|].
    assert (Hv : 2 ^ 52 <= Zpos p * 2 ^ Zpos k < 2 ^ 53).
    { assert (E1 : 2 ^ 52 = 2 ^ (53 - Zpos k - 1) * 2 ^ Zpos k).
      { rewrite <- Z.pow_add_r by lia. f_equal. lia. }
      assert (E2 : 2 ^ 53 = 2 ^ (53 - Zpos k) * 2 ^ Zpos k).
      { rewrite <- Z.pow_add_r by lia. f_equal. lia. }
      assert (HK : 0 < 2 ^ Zpos k) by (apply Z.pow_pos_nonneg; lia).
      revert E1 E2 Hr HK.
      generalize (2 ^ (53 - Zpos k - 1)) (2 ^ (53 - Zpos k)) (2 ^ Zpos k).
      intros a b K E1 E2 Hr HK. nia. }
    split; [exact Hv|].
    rewrite <- iter_xO_value. rewrite Pos2Z.id. rewrite <- Ek.
    replace (- Zpos k) with (Zpos (digits2_pos p) - 53) by lia.
    apply binary_round_aux_canonical; [|lia].
    unfold canonical_mantissa. apply Z.eqb_eq.
    rewrite digits2_pos_iter_xO, fexp_53 by lia. lia.
Qed.

Lemma truncate_num (z : Z) : 0 <= z < 2 ^ 53 -> truncate (num z) = Some z.
Proof.
  intros Hz. destruct (Z.eq_dec z 0) as [->|Hne]; [reflexivity|].
  destruct (Prim2SF_num z ltac:(lia)) as [k [Hk [Hv E]]].
  unfold truncate. rewrite E. cbn [cond_Zopp]. rewrite Z2Pos.id by lia.
  destruct (0 <=? - k) eqn:Ek.
  - apply Z.leb_le in Ek. assert (k = 0) by lia. subst k. cbn. f_equal. lia.
  - rewrite Z.opp_involutive. f_equal. apply Z.div_mul.
    apply Z.pow_nonzero; lia.
Qed.

Lemma integer_value_num (z : Z) : 0 <= z < 2 ^ 53 -> integer_value (num z) = Some z.
Proof.
  intros Hz. destruct (Z.eq_dec z 0) as [->|Hne]; [reflexivity|].
  destruct (Prim2SF_num z ltac:(lia)) as [k [Hk [Hv E]]].
  unfold integer_value. rewrite E. cbn [cond_Zopp]. rewrite Z2Pos.id by lia.
  destruct (0 <=? - k) eqn:Ek.
  - apply Z.leb_le in Ek. assert (k = 0) by lia. subst k. cbn. f_equal. lia.
  - rewrite Z.opp_involutive.
    rewrite Z.mod_mul by (apply Z.pow_nonzero; lia). cbn [Z.eqb].
    f_equal. apply Z.div_mul. apply Z.pow_nonzero; lia.
Qed.

Lemma finite_not_special (x : float) (m : positive) (e : Z) :
  Prim2SF x = S754_finite false m e ->
  PrimFloat.is_nan x || PrimFloat.is_infinity x || PrimFloat.is_zero x = false.
Proof.
  intros E. unfold PrimFloat.is_nan, PrimFloat.is_infinity, PrimFloat.is_zero.
  rewrite !FloatAxioms.eqb_spec, FloatAxioms.abs_spec, E.
  change (Prim2SF infinity) with (S754_infinity false).
  change (Prim2SF PrimFloat.zero) with (S754_zero false).
  unfold SFeqb. cbn [SFabs SFcompare]. rewrite Z.compare_refl.
  rewrite Pos.compare_cont_refl. reflexivity.
Qed.

(** [Math.floor] on a non-negative number below [2^52] is its integer part. *)
Lemma Math_floor_truncate (x : float) (h : Z) :
  nonneg_sf (Prim2SF x) -> truncate x = Some h -> h < 2 ^ 52 ->
  Math_floor x = num h.
Proof.
  intros Hn Ht Hh.
  destruct (Prim2SF x) as [[]|[]| |[] m e] eqn:E; cbn [nonneg_sf] in Hn; try contradiction.
  - unfold truncate in Ht. rewrite E in Ht. injection Ht as <-.
    rewrite (Prim2SF_zero x E). reflexivity.
  - unfold truncate in Ht. rewrite E in Ht. discriminate.
  - assert (Hsign : PrimFloat.get_sign x = false) by (apply nonneg_get_sign; rewrite E; exact I).
    destruct (valid_finite x _ _ _ E) as [Hc He].
    pose proof (digits2_pos_range m) as Hr.
    set (d := Zpos (digits2_pos m)) in *.
    assert (Hd1 : 1 <= d) by (unfold d; lia).
    unfold fexp, SpecFloat.emin, prec, emax in Hc.
    unfold truncate in Ht. rewrite E in Ht. cbn [cond_Zopp] in Ht.
    unfold Math_floor. rewrite (finite_not_special x m e E), Hsign.
    pose proof (FloatAxioms.frshiftexp_spec x) as Hfr.
    destruct (frshiftexp x) as [fm fe]. rewrite E in Hfr. cbn [SFfrexp] in Hfr.
    pose proof (FloatAxioms.normfr_mantissa_spec fm) as HM.
    fold d in Hfr.
    assert (HE : to_Z fe - 2101 = e + d
                 /\ (d = 53 -> to_Z (normfr_mantissa fm) = Zpos m)).
    { unfold prec in Hfr. destruct (53 <=? d) eqn:Ed.
      - apply Z.leb_le in Ed. injection Hfr as Hfm Hfe.
        rewrite Hfm in HM. cbn in HM. unfold FloatOps.shift in Hfe.
        split; [lia|intros _; exact HM].
      - apply Z.leb_gt in Ed. injection Hfr as Hfm Hfe. unfold FloatOps.shift in Hfe.
        change (Z.pos_sub 53 (digits2_pos m)) with (53 - d) in Hfe.
        split; [lia|lia]. }
    destruct HE as [HE HM'].
    pose proof (Uint63.to_Z_bounded fe) as Hfe.
    destruct (fe <=? 2101)%uint63 eqn:B1.
    + apply Uint63.leb_spec in B1. change (to_Z 2101) with 2101 in B1.
      assert (Hed : e + d <= 0) by lia.
      assert (Hlt : Zpos m < 2 ^ (- e)).
      { apply Z.lt_le_trans with (2 ^ d); [lia|]. apply Z.pow_le_mono_r; lia. }
      destruct (0 <=? e) eqn:Ee; [apply Z.leb_le in Ee; lia|].
      rewrite Z.div_small in Ht by lia.
      assert (Hv : 0 = h) by congruence. rewrite <- Hv. reflexivity.
    + assert (B1' : 2101 < to_Z fe).
      { destruct (Z_lt_le_dec 2101 (to_Z fe)) as [H|H]; [exact H|].
        assert (Hc1 : (fe <=? 2101)%uint63 = true) by (apply Uint63.leb_spec; exact H).
        congruence. }
      assert (Hnorm : d = 53) by lia.
      specialize (HM' Hnorm).
      destruct (2154 <=? fe)%uint63 eqn:B2.
      * apply Uint63.leb_spec in B2. change (to_Z 2154) with 2154 in B2.
        assert (He0 : 0 <= e) by lia.
        destruct (0 <=? e) eqn:Ee; [|apply Z.leb_gt in Ee; lia].
        assert (Hv : Zpos m * 2 ^ e = h) by congruence. exfalso.
        assert (2 ^ 52 <= Zpos m) by (rewrite Hnorm in Hr; exact (proj1 Hr)).
        pose proof (Z.pow_pos_nonneg 2 e ltac:(lia) He0).
        assert (Zpos m * 1 <= Zpos m * 2 ^ e) by (apply Z.mul_le_mono_nonneg_l; lia).
        lia.
      * assert (B2' : to_Z fe < 2154).
        { destruct (Z_lt_le_dec (to_Z fe) 2154) as [H|H]; [exact H|].
          assert (Hc1 : (2154 <=? fe)%uint63 = true) by (apply Uint63.leb_spec; exact H).
          congruence. }
        assert (Hk : to_Z (2154 - fe)%uint63 = - e).
        { rewrite Uint63.sub_spec. change (to_Z 2154) with 2154.
          rewrite Z.mod_small; [lia|]. change wB with (2 ^ 63). lia. }
        destruct (0 <=? e) eqn:Ee; [apply Z.leb_le in Ee; lia|].
        assert (Hv : Zpos m / 2 ^ (- e) = h) by congruence. rewrite <- Hv.
        unfold num. f_equal.
        rewrite <- (Uint63.of_to_Z (normfr_mantissa fm >> (2154 - fe))%uint63).
        f_equal. rewrite Uint63.lsr_spec, Hk, HM'. reflexivity.
Qed.

Lemma Zdigits2_range (m : Z) :
  0 < m -> 2 ^ (Zdigits2 m - 1) <= m < 2 ^ Zdigits2 m.
Proof. destruct m as [|p|p]; try lia. intros _. apply digits2_pos_range. Qed.

Lemma Zdigits2_unique (m d : Z) :
  0 < m -> 2 ^ (d - 1) <= m < 2 ^ d -> Zdigits2 m = d.
Proof.
  intros Hm Hd. pose proof (Zdigits2_range m Hm) as Hr.
  assert (H0 : 0 < Zdigits2 m) by (destruct m; try lia; cbn; lia).
  assert (Hd0 : 0 < d).
  { destruct (Z_lt_le_dec 0 d) as [H|H]; [exact H|exfalso].
    assert (2 ^ d <= 2 ^ 0) by (apply Z.pow_le_mono_r; lia).
    change (2 ^ 0) with 1 in *. lia. }
  destruct (Z_lt_le_dec (Zdigits2 m) d) as [H1|H1].
  - assert (2 ^ Zdigits2 m <= 2 ^ (d - 1)) by (apply Z.pow_le_mono_r; lia). lia.
  - destruct (Z_lt_le_dec d (Zdigits2 m)) as [H2|H2]; [|lia].
    assert (2 ^ d <= 2 ^ (Zdigits2 m - 1)) by (apply Z.pow_le_mono_r; lia). lia.
Qed.

(** Shifting a mantissa right divides it by a power of two. *)
Lemma shr_m_shr_1 (mrs : shr_record) :
  0 <= shr_m mrs -> shr_m (shr_1 mrs) = shr_m mrs / 2.
Proof.
  destruct mrs as [m r s]. cbn [shr_m]. intros H.
  destruct m as [|p|p]; try lia; [reflexivity|].
  destruct p as [p|p|]; cbn [shr_1 shr_m].
  - rewrite Pos2Z.inj_xI. apply Z.div_unique with 1; lia.
  - rewrite Pos2Z.inj_xO. apply Z.div_unique with 0; lia.
  - reflexivity.
Qed.

Lemma shr_m_iter (n : positive) :
  forall mrs, 0 <= shr_m mrs ->
              shr_m (SpecFloat.iter_pos shr_1 n mrs) = shr_m mrs / 2 ^ Zpos n.
Proof.
  induction n as [n IH|n IH|]; intros mrs H; cbn [SpecFloat.iter_pos].
  - assert (H1 : 0 <= shr_m (shr_1 mrs)) by (rewrite shr_m_shr_1 by exact H; apply Z.div_pos; lia).
    assert (H2 : 0 <= shr_m (SpecFloat.iter_pos shr_1 n (shr_1 mrs))).
    { rewrite IH by exact H1. apply Z.div_pos; [exact H1|]. apply Z.pow_pos_nonneg; lia. }
    rewrite IH by exact H2. rewrite IH by exact H1. rewrite shr_m_shr_1 by exact H.
    assert (HP : 0 < 2 ^ Zpos n) by (apply Z.pow_pos_nonneg; lia).
    rewrite !Z.div_div by lia. f_equal.
    rewrite Pos2Z.inj_xI. replace (2 * Zpos n + 1) with (1 + Zpos n + Zpos n) by lia.
    rewrite !Z.pow_add_r by lia. change (2 ^ 1) with 2. ring.
  - assert (H2 : 0 <= shr_m (SpecFloat.iter_pos shr_1 n mrs)).
    { rewrite IH by exact H. apply Z.div_pos; [exact H|]. apply Z.pow_pos_nonneg; lia. }
    rewrite IH by exact H2. rewrite IH by exact H.
    assert (HP : 0 < 2 ^ Zpos n) by (apply Z.pow_pos_nonneg; lia).
    rewrite Z.div_div by lia. f_equal.
    replace (Zpos n~0) with (Zpos n + Zpos n) by lia.
    rewrite Z.pow_add_r by lia. reflexivity.
  - rewrite shr_m_shr_1 by exact H. reflexivity.
Qed.

Lemma shr_m_record_of_loc (m : Z) (l : location) : shr_m (shr_record_of_loc m l) = m.
Proof. destruct l as [|[]]; reflexivity. Qed.

(** The first shift of the rounding of a mantissa of at least 53 bits. *)
Lemma shr_fexp_normal (m e : Z) (l : location) :
  0 < m -> 53 <= Zdigits2 m -> -1021 <= Zdigits2 m + e ->
  snd (shr_fexp prec emax m e l) = e + (Zdigits2 m - 53)
  /\ shr_m (fst (shr_fexp prec emax m e l)) = m / 2 ^ (Zdigits2 m - 53).
Proof.
  intros Hm Hd He. unfold shr_fexp. rewrite fexp_53 by exact He.
  replace (Zdigits2 m + e - 53 - e) with (Zdigits2 m - 53) by lia.
  unfold shr. destruct (Zdigits2 m - 53) as [|n|n] eqn:En; try lia; cbn [fst snd].
  - rewrite shr_m_record_of_loc, Z.div_1_r. split; [lia|reflexivity].
  - rewrite shr_m_iter by (rewrite shr_m_record_of_loc; lia).
    rewrite shr_m_record_of_loc. split; reflexivity.
Qed.

Lemma round_nearest_even_range (m : Z) (l : location) :
  m <= round_nearest_even m l <= m + 1.
Proof. destruct l as [|[]]; cbn; try lia. destruct (Z.even m); lia. Qed.

(** Rounding to nearest of a positive mantissa of at least 53 bits, away
    from underflow and overflow: the result is normal, its exponent is
    known up to one, and it is within one unit in the last place. *)
Lemma binary_round_aux_normal (m e : Z) (l : location) :
  0 < m -> 53 <= Zdigits2 m -> -1021 <= Zdigits2 m + e -> Zdigits2 m + e <= 1023 ->
  exists m3 e3,
    binary_round_aux prec emax false m e l = S754_finite false m3 e3
    /\ e + Zdigits2 m - 53 <= e3 <= e + Zdigits2 m - 52
    /\ 2 ^ 52 <= Zpos m3 < 2 ^ 53
    /\ m - 2 ^ (e3 - e) < Zpos m3 * 2 ^ (e3 - e) <= m + 2 ^ (e3 - e).
Proof.
  intros Hm Hd He Hmax.
  pose proof (Zdigits2_range m Hm) as Hr.
  destruct (shr_fexp_normal m e l Hm Hd He) as [E1 M1].
  unfold binary_round_aux.
  destruct (shr_fexp prec emax m e l) as [mrs1 e1]. cbn [fst snd] in E1, M1.
  set (n := Zdigits2 m - 53) in *.
  assert (Hn : 0 <= n) by (unfold n; lia).
  assert (HP : 0 < 2 ^ n) by (apply Z.pow_pos_nonneg; lia).
  set (m1 := shr_m mrs1) in *.
  assert (Hdiv : m1 * 2 ^ n <= m < (m1 + 1) * 2 ^ n).
  { rewrite M1. pose proof (Z.div_mod m (2 ^ n) ltac:(lia)) as Hq.
    pose proof (Z.mod_pos_bound m (2 ^ n) HP) as Hb. nia. }
  assert (Hm1 : 2 ^ 52 <= m1 < 2 ^ 53).
  { assert (E52 : 2 ^ (Zdigits2 m - 1) = 2 ^ 52 * 2 ^ n).
    { rewrite <- Z.pow_add_r by lia. f_equal. unfold n. lia. }
    assert (E53 : 2 ^ Zdigits2 m = 2 ^ 53 * 2 ^ n).
    { rewrite <- Z.pow_add_r by lia. f_equal. unfold n. lia. }
    rewrite E52, E53 in Hr. split; nia. }
  pose proof (round_nearest_even_range m1 (loc_of_shr_record mrs1)) as Hrne.
  set (m2 := round_nearest_even m1 (loc_of_shr_record mrs1)) in *.
  assert (Hm2 : 0 < m2) by lia.
  destruct (Z.eq_dec m2 (2 ^ 53)) as [Etop|Ntop].
  - assert (Ed2 : Zdigits2 m2 = 54).
    { apply Zdigits2_unique; [exact Hm2|]. rewrite Etop. split; [reflexivity|]. reflexivity. }
    destruct (shr_fexp_normal m2 e1 loc_Exact Hm2 ltac:(lia) ltac:(lia)) as [E2 M2].
    destruct (shr_fexp prec emax m2 e1 loc_Exact) as [mrs2 e2]. cbn [fst snd] in E2, M2.
    rewrite Ed2 in E2, M2. rewrite Etop in M2.
    change (2 ^ 53 / 2 ^ (54 - 53)) with (2 ^ 52) in M2. rewrite M2.
    change (2 ^ 52) with (Zpos 4503599627370496).
    replace (e2 <=? emax - prec) with true
      by (symmetry; apply Z.leb_le; unfold emax, prec; lia).
    exists 4503599627370496%positive, e2. split; [reflexivity|].
    split; [lia|]. split; [split; [reflexivity|reflexivity]|].
    replace (e2 - e) with (n + 1) by lia.
    rewrite Z.pow_add_r by lia. change (2 ^ 1) with 2.
    change (Zpos 4503599627370496) with (2 ^ 52).
    assert (m1 + 1 = 2 ^ 53) by lia.
    assert (Hx : 2 ^ 52 * (2 ^ n * 2) = (m1 + 1) * 2 ^ n).
    { replace (m1 + 1) with (2 ^ 53) by lia. change (2 ^ 53) with (2 ^ 52 * 2). ring. }
    rewrite Hx. nia.
  - assert (Hlt : m2 < 2 ^ 53) by lia.
    assert (Ed2 : Zdigits2 m2 = 53).
    { apply Zdigits2_unique; [exact Hm2|]. change (2 ^ (53 - 1)) with (2 ^ 52). lia. }
    destruct (shr_fexp_normal m2 e1 loc_Exact Hm2 ltac:(lia) ltac:(lia)) as [E2 M2].
    destruct (shr_fexp prec emax m2 e1 loc_Exact) as [mrs2 e2]. cbn [fst snd] in E2, M2.
    rewrite Ed2 in E2, M2. change (2 ^ (53 - 53)) with 1 in M2. rewrite Z.div_1_r in M2.
    rewrite M2. destruct m2 as [|p2|p2]; try lia.
    replace (e2 <=? emax - prec) with true
      by (symmetry; apply Z.leb_le; unfold emax, prec; lia).
    exists p2, e2. split; [reflexivity|]. split; [lia|]. split; [lia|].
    replace (e2 - e) with n by lia. nia.
Qed.

(** ** Values as real numbers *)

Lemma powerRZ_2_pos (e : Z) : (0 < powerRZ 2 e)%R.
Proof. apply powerRZ_lt. lra. Qed.

Lemma powerRZ_2_add (a b : Z) : powerRZ 2 (a + b) = (powerRZ 2 a * powerRZ 2 b)%R.
Proof. apply powerRZ_add. lra. Qed.

Lemma IZR_pow2 (k : Z) : 0 <= k -> IZR (2 ^ k) = powerRZ 2 k.
Proof.
  intros Hk. rewrite <- (Z2Nat.id k Hk) at 1. rewrite <- pow_IZR.
  rewrite pow_powerRZ. rewrite Z2Nat.id by exact Hk. reflexivity.
Qed.

Lemma value_num (z : Z) : 0 <= z < 2 ^ 53 -> value (num z) = IZR z.
Proof.
  intros Hz. destruct (Z.eq_dec z 0) as [->|Hne].
  - unfold value. change (Prim2SF (num 0)) with (S754_zero false). reflexivity.
  - destruct (Prim2SF_num z ltac:(lia)) as [k [Hk [Hv E]]].
    unfold value. rewrite E. cbn [cond_Zopp]. rewrite Z2Pos.id by lia.
    rewrite mult_IZR, IZR_pow2 by lia. rewrite Rmult_assoc, <- powerRZ_2_add.
    replace (k + - k) with 0 by lia. cbn. lra.
Qed.

(** One rounding: the rounded value [z] of [x] satisfies [|z - x| <= z * 2^-52]. *)
Lemma rounded_value (m e : Z) (m3 : positive) (e3 : Z) :
  e <= e3 -> 2 ^ 52 <= Zpos m3 ->
  m - 2 ^ (e3 - e) < Zpos m3 * 2 ^ (e3 - e) <= m + 2 ^ (e3 - e) ->
  (IZR (Zpos m3) * powerRZ 2 e3 * (1 - / 4503599627370496)
   <= IZR m * powerRZ 2 e
   <= IZR (Zpos m3) * powerRZ 2 e3 * (1 + / 4503599627370496))%R
  /\ (powerRZ 2 e <= IZR (Zpos m3) * powerRZ 2 e3 * / 4503599627370496)%R.
Proof.
  intros He Hm [Hlo Hhi].
  set (k := e3 - e) in *.
  assert (Hk : 0 <= k) by (unfold k; lia).
  apply IZR_lt in Hlo. apply IZR_le in Hhi. apply IZR_le in Hm.
  rewrite minus_IZR in Hlo. rewrite plus_IZR in Hhi. rewrite mult_IZR in Hlo, Hhi.
  rewrite IZR_pow2 in Hlo, Hhi by exact Hk.
  change (IZR (2 ^ 52)) with 4503599627370496%R in Hm.
  replace e3 with (k + e) by (unfold k; lia). rewrite powerRZ_2_add.
  pose proof (powerRZ_2_pos k) as Pk. pose proof (powerRZ_2_pos e) as Pe.
  set (K := powerRZ 2 k) in *. set (E := powerRZ 2 e) in *.
  set (M3 := IZR (Zpos m3)) in *. set (M := IZR m) in *.
  assert (H1 : (K * E <= M3 * K * E * / 4503599627370496)%R).
  { assert (K <= M3 * K * / 4503599627370496)%R.
    { assert (K * 4503599627370496 <= K * M3)%R by (apply Rmult_le_compat_l; lra). lra. }
    assert (K * E <= (M3 * K * / 4503599627370496) * E)%R by (apply Rmult_le_compat_r; lra).
    lra. }
  assert (H2 : ((M - K) * E <= M3 * K * E)%R).
  { replace (M3 * K * E)%R with ((M3 * K) * E)%R by ring. apply Rmult_le_compat_r; lra. }
  assert (H3 : (M3 * K * E <= (M + K) * E)%R).
  { replace (M3 * K * E)%R with ((M3 * K) * E)%R by ring. apply Rmult_le_compat_r; lra. }
  assert (H4 : (1 <= K)%R).
  { unfold K. rewrite <- IZR_pow2 by exact Hk. apply IZR_le.
    pose proof (Z.pow_pos_nonneg 2 k ltac:(lia) Hk). lia. }
  assert (H5 : (1 * E <= K * E)%R) by (apply Rmult_le_compat_r; lra).
  split; [split; lra|lra].
Qed.

Lemma Zdigits2_between (m lo hi : Z) :
  0 <= lo -> 2 ^ lo <= m < 2 ^ hi -> lo + 1 <= Zdigits2 m <= hi.
Proof.
  intros Hlo [H1 H2].
  assert (Hm : 0 < m) by (pose proof (Z.pow_pos_nonneg 2 lo ltac:(lia) Hlo); lia).
  pose proof (Zdigits2_range m Hm) as Hr.
  assert (H0 : 0 < Zdigits2 m) by (destruct m; try lia; cbn; lia).
  split.
  - destruct (Z_lt_le_dec lo (Zdigits2 m)) as [H|H]; [lia|].
    assert (2 ^ Zdigits2 m <= 2 ^ lo) by (apply Z.pow_le_mono_r; lia). lia.
  - destruct (Z_lt_le_dec hi (Zdigits2 m)) as [H|H]; [|lia].
    assert (2 ^ hi <= 2 ^ (Zdigits2 m - 1)) by (apply Z.pow_le_mono_r; lia). lia.
Qed.

(** A rounded product of two normal numbers. *)
Lemma mul_value (x y : float) (mx my : positive) (ex ey : Z) :
  Prim2SF x = S754_finite false mx ex -> 2 ^ 52 <= Zpos mx < 2 ^ 53 ->
  Prim2SF y = S754_finite false my ey -> 2 ^ 52 <= Zpos my < 2 ^ 53 ->
  -1100 <= ex + ey <= 900 ->
  exists mz ez,
    Prim2SF (x * y)%float = S754_finite false mz ez
    /\ 2 ^ 52 <= Zpos mz < 2 ^ 53
    /\ ex + ey + 52 <= ez <= ex + ey + 54
    /\ (value (x * y)%float * (1 - / 4503599627370496)
        <= value x * value y
        <= value (x * y)%float * (1 + / 4503599627370496))%R.
Proof.
  intros Ex Hx Ey Hy He.
  assert (Hprod : 2 ^ 104 <= Zpos (mx * my) < 2 ^ 106).
  { rewrite Pos2Z.inj_mul. change (2 ^ 104) with (2 ^ 52 * 2 ^ 52).
    change (2 ^ 106) with (2 ^ 53 * 2 ^ 53). nia. }
  pose proof (Zdigits2_between _ 104 106 ltac:(lia) Hprod) as Hd.
  destruct (binary_round_aux_normal (Zpos (mx * my)) (ex + ey) loc_Exact
              ltac:(lia) ltac:(lia) ltac:(lia) ltac:(lia))
    as [mz [ez [E [Hez [Hmz Hb]]]]].
  exists mz, ez.
  assert (Ez : Prim2SF (x * y)%float = S754_finite false mz ez).
  { rewrite FloatAxioms.mul_spec, Ex, Ey. exact E. }
  split; [exact Ez|]. split; [exact Hmz|]. split; [lia|].
  unfold value. rewrite Ez, Ex, Ey. cbn [cond_Zopp].
  destruct (rounded_value (Zpos (mx * my)) (ex + ey) mz ez ltac:(lia) ltac:(lia) Hb)
    as [Hr _].
  rewrite Pos2Z.inj_mul, mult_IZR, powerRZ_2_add in Hr.
  replace (IZR (Zpos mx) * powerRZ 2 ex * (IZR (Zpos my) * powerRZ 2 ey))%R
    with (IZR (Zpos mx) * IZR (Zpos my) * (powerRZ 2 ex * powerRZ 2 ey))%R by ring.
  exact Hr.
Qed.

(** A rounded quotient of two normal numbers. *)
Lemma div_value (x y : float) (mx my : positive) (ex ey : Z) :
  Prim2SF x = S754_finite false mx ex -> 2 ^ 52 <= Zpos mx < 2 ^ 53 ->
  Prim2SF y = S754_finite false my ey -> 2 ^ 52 <= Zpos my < 2 ^ 53 ->
  -900 <= ex - ey <= 900 ->
  exists mz ez,
    Prim2SF (x / y)%float = S754_finite false mz ez
    /\ 2 ^ 52 <= Zpos mz < 2 ^ 53
    /\ ex - ey - 53 <= ez <= ex - ey - 51
    /\ (value (x / y)%float * value y * (1 - 2 * / 4503599627370496)
        <= value x
        <= value (x / y)%float * value y * (1 + 2 * / 4503599627370496))%R.
Proof.
  intros Ex Hx Ey Hy He.
  assert (Dx : Zdigits2 (Zpos mx) = 53) by (apply Zdigits2_unique; [lia|exact Hx]).
  assert (Dy : Zdigits2 (Zpos my) = 53) by (apply Zdigits2_unique; [lia|exact Hy]).
  assert (Ez0 : Prim2SF (x / y)%float
                = let '(mz, ez, lz) := SFdiv_core_binary prec emax (Zpos mx) ex (Zpos my) ey in
                  binary_round_aux prec emax false mz ez lz).
  { rewrite FloatAxioms.div_spec, Ex, Ey. reflexivity. }
  unfold SFdiv_core_binary in Ez0. rewrite Dx, Dy in Ez0.
  rewrite fexp_53 in Ez0 by lia.
  replace (Z.min (53 + ex - (53 + ey) - 53) (ex - ey)) with (ex - ey - 53) in Ez0 by lia.
  replace (ex - ey - (ex - ey - 53)) with 53 in Ez0 by lia.
  cbv iota in Ez0. rewrite Z.shiftl_mul_pow2 in Ez0 by lia.
  pose proof (Z.div_eucl_eq (Zpos mx * 2 ^ 53) (Zpos my) ltac:(lia)) as Hq.
  pose proof (Z.mod_pos_bound (Zpos mx * 2 ^ 53) (Zpos my) ltac:(lia)) as Hr.
  unfold Z.modulo in Hr.
  destruct (Z.div_eucl (Zpos mx * 2 ^ 53) (Zpos my)) as [q r].
  cbv beta iota in Hq, Hr.
  assert (Hqr : 2 ^ 52 <= q < 2 ^ 54).
  { split.
    - destruct (Z_lt_le_dec q (2 ^ 52)) as [H|H]; [exfalso|exact H].
      assert ((q + 1) * Zpos my <= 2 ^ 52 * Zpos my) by (apply Z.mul_le_mono_nonneg_r; lia).
      lia.
    - destruct (Z_lt_le_dec q (2 ^ 54)) as [H|H]; [exact H|exfalso].
      assert (2 ^ 54 * Zpos my <= q * Zpos my) by (apply Z.mul_le_mono_nonneg_r; lia).
      lia. }
  pose proof (Zdigits2_between q 52 54 ltac:(lia) Hqr) as Hd.
  destruct (binary_round_aux_normal q (ex - ey - 53) (new_location (Zpos my) r)
              ltac:(lia) ltac:(lia) ltac:(lia) ltac:(lia))
    as [mz [ez [E [Hez [Hmz Hb]]]]].
  rewrite E in Ez0. exists mz, ez.
  split; [exact Ez0|]. split; [exact Hmz|]. split; [lia|].
  unfold value. rewrite Ez0, Ex, Ey. cbn [cond_Zopp].
  destruct (rounded_value q (ex - ey - 53) mz ez ltac:(lia) ltac:(lia) Hb) as [Hv Hu].
  assert (HX : (IZR q * IZR (Zpos my) <= IZR (Zpos mx) * 9007199254740992
                <= IZR q * IZR (Zpos my) + IZR (Zpos my))%R).
  { change 9007199254740992%R with (IZR (2 ^ 53)).
    rewrite <- !mult_IZR, <- plus_IZR. split; apply IZR_le; lia. }
  assert (E53 : powerRZ 2 ex = (9007199254740992 * powerRZ 2 (ex - ey - 53) * powerRZ 2 ey)%R).
  { replace ex with (53 + (ex - ey - 53) + ey) at 1 by lia.
    rewrite !powerRZ_2_add, <- (IZR_pow2 53) by lia. reflexivity. }
  rewrite E53.
  pose proof (powerRZ_2_pos (ex - ey - 53)) as P1.
  pose proof (powerRZ_2_pos ey) as P2.
  set (Z3 := (IZR (Zpos mz) * powerRZ 2 ez)%R) in *.
  set (U := powerRZ 2 (ex - ey - 53)) in *. set (V := powerRZ 2 ey) in *.
  set (Q := IZR q) in *. set (MY := IZR (Zpos my)) in *. set (MX := IZR (Zpos mx)) in *.
  assert (PY : (0 < MY)%R) by (apply IZR_lt; lia).
  assert (PYV : (0 < MY * V)%R) by (apply Rmult_lt_0_compat; lra).
  assert (G1 : ((Q * MY) * (U * V) <= (MX * 9007199254740992) * (U * V))%R).
  { apply Rmult_le_compat_r; [|lra]. apply Rlt_le, Rmult_lt_0_compat; lra. }
  assert (G2 : ((MX * 9007199254740992) * (U * V) <= (Q * MY + MY) * (U * V))%R).
  { apply Rmult_le_compat_r; [|lra]. apply Rlt_le, Rmult_lt_0_compat; lra. }
  assert (G3 : ((Z3 * (1 - / 4503599627370496)) * (MY * V) <= (Q * U) * (MY * V))%R).
  { apply Rmult_le_compat_r; lra. }
  assert (G4 : ((Q * U) * (MY * V) <= (Z3 * (1 + / 4503599627370496)) * (MY * V))%R).
  { apply Rmult_le_compat_r; lra. }
  assert (G5 : (U * (MY * V) <= (Z3 * / 4503599627370496) * (MY * V))%R).
  { apply Rmult_le_compat_r; lra. }
  split; lra.
Qed.

(** ** The derived height in exact terms *)

Lemma value_FONT_SIZE_ADJUST : value FONT_SIZE_ADJUST = (/ 2)%R.
Proof.
  unfold value. change (Prim2SF FONT_SIZE_ADJUST) with (S754_finite false 4503599627370496 (-53)).
  cbn [cond_Zopp].
  assert (H : (powerRZ 2 (-53) * IZR (2 ^ 53) = 1)%R).
  { rewrite IZR_pow2 by lia. rewrite <- powerRZ_2_add. reflexivity. }
  change (IZR (2 ^ 53)) with 9007199254740992%R in H. lra.
Qed.

(** The integer part of a positive finite number, as a real inequality. *)
Lemma truncate_bounds (x : float) (m : positive) (e : Z) :
  Prim2SF x = S754_finite false m e ->
  exists h, truncate x = Some h /\ (IZR h <= value x < IZR h + 1)%R.
Proof.
  intros E. unfold truncate, value. rewrite E. cbn [cond_Zopp].
  destruct (0 <=? e) eqn:Ee.
  - apply Z.leb_le in Ee. exists (Zpos m * 2 ^ e). split; [reflexivity|].
    rewrite mult_IZR, IZR_pow2 by exact Ee. lra.
  - apply Z.leb_gt in Ee. exists (Zpos m / 2 ^ (- e)). split; [reflexivity|].
    assert (HK : 0 < 2 ^ (- e)) by (apply Z.pow_pos_nonneg; lia).
    pose proof (Z.div_mod (Zpos m) (2 ^ (- e)) ltac:(lia)) as Hq.
    pose proof (Z.mod_pos_bound (Zpos m) (2 ^ (- e)) HK) as Hb.
    set (h := Zpos m / 2 ^ (- e)) in *.
    assert (H1 : h * 2 ^ (- e) <= Zpos m) by lia.
    assert (H2 : Zpos m < (h + 1) * 2 ^ (- e)) by lia.
    apply IZR_le in H1. apply IZR_lt in H2.
    rewrite mult_IZR in H1, H2. rewrite plus_IZR in H2. rewrite IZR_pow2 in H1, H2 by lia.
    assert (HU : (powerRZ 2 (- e) * powerRZ 2 e = 1)%R).
    { rewrite <- powerRZ_2_add. replace (- e + e) with 0 by lia. reflexivity. }
    pose proof (powerRZ_2_pos e) as Pe.
    set (U := powerRZ 2 e) in *. set (K := powerRZ 2 (- e)) in *.
    assert (G1 : ((IZR h * K) * U <= IZR (Zpos m) * U)%R) by (apply Rmult_le_compat_r; lra).
    assert (G2 : (IZR (Zpos m) * U < ((IZR h + 1) * K) * U)%R) by (apply Rmult_lt_compat_r; lra).
    replace ((IZR h * K) * U)%R with (IZR h * (K * U))%R in G1 by ring.
    replace (((IZR h + 1) * K) * U)%R with ((IZR h + 1) * (K * U))%R in G2 by ring.
    rewrite HU in G1, G2. lra.
Qed.

(** Lines 60-62 in exact terms: the height is an integer [h] with
    [h <= H * W / (2 * V) <= h + 1], where [V] and [H] are the native
    width and height. *)
Lemma canvasHeight_exact (v : Video) (W : Z) :
  0 < videoWidth v < 2 ^ 32 -> 0 <= videoHeight v < 2 ^ 32 -> 0 < W < 2 ^ 9 ->
  exists h,
    canvasHeight v W = num h
    /\ 0 <= h < 2 ^ 41
    /\ 2 * videoWidth v * h <= videoHeight v * W <= 2 * videoWidth v * (h + 1).
Proof.
  intros Hw Hh HW. unfold canvasHeight, aspectRatio.
  destruct (Z.eq_dec (videoHeight v) 0) as [E0|Hne].
  - rewrite E0. exists 0.
    assert (E : (num 0 / num (videoWidth v))%float = 0%float).
    { apply Prim2SF_zero. rewrite FloatAxioms.div_spec.
      destruct (Prim2SF_num_pos (videoWidth v) ltac:(lia)) as [m [e ->]]. reflexivity. }
    assert (E2 : (0 * num W)%float = 0%float).
    { apply Prim2SF_zero. rewrite FloatAxioms.mul_spec.
      destruct (Prim2SF_num_pos W ltac:(lia)) as [m [e ->]]. reflexivity. }
    rewrite E, E2. split; [reflexivity|]. lia.
  - destruct (Prim2SF_num (videoHeight v) ltac:(lia)) as [ka [Hka [Hma Ea]]].
    destruct (Prim2SF_num (videoWidth v) ltac:(lia)) as [kb [Hkb [Hmb Eb]]].
    destruct (Prim2SF_num W ltac:(lia)) as [kw [Hkw [Hmw Ew]]].
    destruct (div_value (num (videoHeight v)) (num (videoWidth v)) _ _ _ _
                Ea ltac:(rewrite Z2Pos.id by lia; exact Hma)
                Eb ltac:(rewrite Z2Pos.id by lia; exact Hmb) ltac:(lia))
      as [mq [eq [Eq [Hmq [Heq Vq]]]]].
    destruct (mul_value _ (num W) _ _ _ _
                Eq Hmq Ew ltac:(rewrite Z2Pos.id by lia; exact Hmw) ltac:(lia))
      as [mp [ep [Ep [Hmp [Hep Vp]]]]].
    assert (Ehalf : Prim2SF FONT_SIZE_ADJUST = S754_finite false 4503599627370496 (-53))
      by reflexivity.
    destruct (mul_value _ FONT_SIZE_ADJUST _ _ _ _
                Ep Hmp Ehalf ltac:(split; [reflexivity|reflexivity]) ltac:(lia))
      as [mr [er [Er [Hmr [Her Vr]]]]].
    rewrite value_FONT_SIZE_ADJUST in Vr.
    rewrite (value_num (videoHeight v)), (value_num (videoWidth v)) in Vq by lia.
    rewrite (value_num W) in Vp by lia.
    set (q := (num (videoHeight v) / num (videoWidth v))%float) in *.
    set (p := (q * num W)%float) in *.
    set (r := (p * FONT_SIZE_ADJUST)%float) in *.
    destruct (truncate_bounds r mr er Er) as [h [Ht Hfl]].
    set (a := IZR (videoHeight v)) in *. set (b := IZR (videoWidth v)) in *.
    set (w := IZR W) in *.
    assert (Pa : (0 < a)%R) by (apply IZR_lt; lia).
    assert (Pb : (0 < b)%R) by (apply IZR_lt; lia).
    assert (Pw : (0 < w)%R) by (apply IZR_lt; lia).
    set (eps := (/ 4503599627370496)%R) in *.
    assert (Heps : (eps = / 4503599627370496)%R) by reflexivity.
    assert (S2 : ((value p * (1 - eps)) * b <= (value q * w) * b
                  <= (value p * (1 + eps)) * b)%R).
    { split; apply Rmult_le_compat_r; lra. }
    assert (S3 : ((value r * (1 - eps)) * (2 * b) <= (value p * / 2) * (2 * b)
                  <= (value r * (1 + eps)) * (2 * b))%R).
    { split; apply Rmult_le_compat_r; lra. }
    assert (S1 : ((value q * b * (1 - 2 * eps)) * w <= a * w
                  <= (value q * b * (1 + 2 * eps)) * w)%R).
    { split; apply Rmult_le_compat_r; lra. }
    set (R' := (2 * b * value r)%R).
    set (P' := (b * value p)%R).
    set (QW := (value q * b * w)%R).
    assert (T3 : (R' * (1 - eps) <= P' <= R' * (1 + eps))%R) by (unfold R', P'; lra).
    assert (T2 : (P' * (1 - eps) <= QW <= P' * (1 + eps))%R) by (unfold P', QW; lra).
    assert (T1 : (QW * (1 - 2 * eps) <= a * w <= QW * (1 + 2 * eps))%R) by (unfold QW; lra).
    assert (HT : (a * w < 2199023255552)%R).
    { unfold a, w. rewrite <- mult_IZR. apply IZR_lt.
      change 2199023255552 with (2 ^ 32 * 2 ^ 9). nia. }
    assert (PT : (0 < a * w)%R) by (apply Rmult_lt_0_compat; lra).
    assert (PR : (0 < R')%R).
    { destruct (Rlt_le_dec 0 R') as [H|H]; [exact H|exfalso].
      assert (P' <= 0)%R by (rewrite Heps in T3; lra).
      assert (QW <= 0)%R by (rewrite Heps in T2; lra).
      rewrite Heps in T1. lra. }
    assert (Hclose : (a * w - 1 < R' < a * w + 1)%R).
    { assert (U3 : (R' * (1 - eps) <= P' <= R' * (1 + eps))%R) by exact T3.
      assert (PP : (0 < P')%R) by (rewrite Heps in T3; lra).
      assert (PQ : (0 < QW)%R) by (rewrite Heps in T2; lra).
      assert (B1 : (QW <= R' * (1 + 3 * eps))%R).
      { assert (P' * (1 + eps) <= R' * (1 + eps) * (1 + eps))%R
          by (apply Rmult_le_compat_r; [rewrite Heps; lra|lra]).
        assert (R' * (eps * eps) <= R' * eps)%R
          by (apply Rmult_le_compat_l; [lra|rewrite Heps; lra]).
        lra. }
      assert (B2 : (R' * (1 - 2 * eps) <= QW)%R).
      { assert (R' * (1 - eps) * (1 - eps) <= P' * (1 - eps))%R
          by (apply Rmult_le_compat_r; [rewrite Heps; lra|lra]).
        assert (0 <= R' * (eps * eps))%R
          by (apply Rmult_le_pos; [lra|rewrite Heps; lra]).
        lra. }
      assert (B3 : (a * w <= R' * (1 + 6 * eps))%R).
      { assert (QW * (1 + 2 * eps) <= R' * (1 + 3 * eps) * (1 + 2 * eps))%R
          by (apply Rmult_le_compat_r; [rewrite Heps; lra|lra]).
        assert (R' * (6 * (eps * eps)) <= R' * eps)%R
          by (apply Rmult_le_compat_l; [lra|rewrite Heps; lra]).
        lra. }
      assert (B4 : (R' * (1 - 4 * eps) <= a * w)%R).
      { assert (R' * (1 - 2 * eps) * (1 - 2 * eps) <= QW * (1 - 2 * eps))%R
          by (apply Rmult_le_compat_r; [rewrite Heps; lra|lra]).
        assert (0 <= R' * (4 * (eps * eps)))%R
          by (apply Rmult_le_pos; [lra|rewrite Heps; lra]).
        lra. }
      rewrite Heps in B3, B4. split; lra. }
    assert (HD : (IZR (2 * videoWidth v) * IZR h <= R'
                  < IZR (2 * videoWidth v) * (IZR h + 1))%R).
    { rewrite mult_IZR. fold b. unfold R'. split.
      - apply Rmult_le_compat_l; lra.
      - apply Rmult_lt_compat_l; lra. }
    assert (I1 : 2 * videoWidth v * h < videoHeight v * W + 1).
    { apply lt_IZR. rewrite plus_IZR, !mult_IZR. fold a b w.
      rewrite mult_IZR in HD. fold b in HD. lra. }
    assert (I2 : videoHeight v * W - 1 < 2 * videoWidth v * (h + 1)).
    { apply lt_IZR. rewrite minus_IZR, !mult_IZR, plus_IZR. fold a b w.
      rewrite mult_IZR in HD. fold b in HD. lra. }
    assert (Hh0 : 0 <= h < 2 ^ 41).
    { split; [nia|]. change (2 ^ 41) with (2 ^ 32 * 2 ^ 9). nia. }
    exists h. split; [|split; [exact Hh0|lia]].
    apply Math_floor_truncate; [rewrite Er; exact I|exact Ht|].
    apply Z.lt_trans with (2 ^ 41); [lia|reflexivity].
Qed.

(** ** Claims about the output geometry and the failing cycle *)

Lemma canvasHeight_dimensions (v v' : Video) (W : Z) :
  videoWidth v = videoWidth v' -> videoHeight v = videoHeight v' ->
  canvasHeight v W = canvasHeight v' W.
Proof. intros Hw Hh. unfold canvasHeight, aspectRatio. now rewrite Hw, Hh. Qed.

Lemma hd_heights_checked :
  all_from 251 50 (fun W =>
    match integer_value (canvasHeight hd_video W) with
    | Some h => h =? 1080 * W / (2 * 1920)
    | None => false
    end) = true.
Proof. vm_compute. reflexivity. Qed.

(** The [width] and [height] setters of the canvas store a small integer as
    it is. *)
Lemma to_unsigned_long_num (z : Z) : 0 <= z < 2 ^ 32 -> to_unsigned_long (num z) = z.
Proof.
  intros Hz. unfold to_unsigned_long.
  rewrite truncate_num by (split; [lia|]; apply Z.lt_trans with (2 ^ 32); [lia|reflexivity]).
  apply Z.mod_small. exact Hz.
Qed.

(** A cycle whose read-back rectangle has no rows: [getImageData] throws,
    the handler logs, and the state stays. *)
Lemma convertToAscii_throws (w : World) (v : Video) (c : Canvas) :
  videoRef w = Some v -> canvasRef w = Some c -> context2d c = true ->
  to_long (canvasHeight v (resolution (state w))) = 0 ->
  state (convertToAscii w) = state w
  /\ console (convertToAscii w) = console w ++ ["Failed to get image data:"%string].
Proof.
  intros Hv Hc Hctx Hz. unfold convertToAscii. rewrite Hv, Hc, Hctx. cbn [negb].
  unfold getImageData. rewrite Hz, Z.eqb_refl, orb_true_r. split; reflexivity.
Qed.

(** C2, as stated, fails: for a 240 by 176 source at the default width 150
    the exact value of [(176 / 240) * 150 * 0.5] is 55, so its floor is 55,
    and the code computes 54: the quotient [176 / 240] is rounded to a number
    just below 11/15, and the product stays just below 55. *)
Lemma small_source_height_below_floor :
  ~ (integer_value (canvasHeight small_video DEFAULT_RESOLUTION)
     = Some (videoHeight small_video * DEFAULT_RESOLUTION / (2 * videoWidth small_video))).
Proof. intros H. vm_compute in H. discriminate. Qed.

(** C2, amended: the height of lines 60-62 is an integer [h] that the exact
    quotient [videoHeight * width / (2 * videoWidth)] pins down up to the
    rounding of the three binary64 operations: [h] is the floor of the exact
    quotient whenever that quotient is not an integer, and the quotient or
    one less when it is.  The canvas gets the width and that height.  For a
    1920 by 1080 source the height is the exact floor at every width of the
    control, 42 at 150; for a 240 by 176 source at 150 it is 54, one less
    than the exact 55. *)
Theorem derived_height :
  (forall v W,
      0 < videoWidth v < 2 ^ 32 -> 0 <= videoHeight v < 2 ^ 32 -> 50 <= W <= 300 ->
      exists h,
        canvasHeight v W = num h
        /\ integer_value (canvasHeight v W) = Some h
        /\ videoHeight v * W / (2 * videoWidth v) - 1 <= h
           <= videoHeight v * W / (2 * videoWidth v)
        /\ ((videoHeight v * W) mod (2 * videoWidth v) <> 0 ->
            h = videoHeight v * W / (2 * videoWidth v))
        /\ (forall w c,
               videoRef w = Some v -> canvasRef w = Some c -> context2d c = true ->
               resolution (state w) = W -> h < 2 ^ 31 ->
               exists c', canvasRef (convertToAscii w) = Some c'
                          /\ height c' = h /\ width c' = W))
  /\ (forall v W,
         videoWidth v = 1920 -> videoHeight v = 1080 -> 50 <= W <= 300 ->
         integer_value (canvasHeight v W) = Some (1080 * W / (2 * 1920)))
  /\ integer_value (canvasHeight hd_video 150) = Some 42
  /\ integer_value (canvasHeight small_video 150) = Some 54.
Proof.
  split; [|split; [|split]].
  - intros v W Hw Hh HW.
    destruct (canvasHeight_exact v W Hw Hh ltac:(change (2 ^ 9) with 512; lia))
      as [h [Eh [Hh0 Hb]]].
    exists h. split; [exact Eh|].
    set (T := videoHeight v * W) in *. set (D := 2 * videoWidth v) in *.
    assert (HD : 0 < D) by (unfold D; lia).
    pose proof (Z.div_mod T D ltac:(lia)) as Hdm.
    pose proof (Z.mod_pos_bound T D HD) as Hm.
    assert (Hle : h <= T / D) by (apply Z.div_le_lower_bound; lia).
    assert (Hge : T / D - 1 <= h) by nia.
    split; [rewrite Eh; apply integer_value_num; split; [lia|];
            apply Z.lt_trans with (2 ^ 41); [lia|reflexivity]|].
    split; [lia|]. split.
    + intros Hne. assert (T / D <= h) by nia. lia.
    + intros w c Hv Hc Hctx Hres H31.
      destruct (convertToAscii_outcome w v c Hv Hc Hctx) as [_ Hcv].
      eexists. split; [exact Hcv|]. cbn [height width]. rewrite Hres, Eh.
      split; apply to_unsigned_long_num.
      * split; [lia|]. apply Z.lt_trans with (2 ^ 31); [lia|reflexivity].
      * split; [lia|]. apply Z.le_lt_trans with 300; [lia|reflexivity].
  - intros v W Hw Hh HW.
    rewrite (canvasHeight_dimensions v hd_video W Hw Hh).
    pose proof (all_from_spec _ _ _ hd_heights_checked W ltac:(lia)) as H.
    cbv beta in H. destruct (integer_value (canvasHeight hd_video W)) as [h|];
      [|discriminate].
    apply Z.eqb_eq in H. now subst h.
  - vm_compute. reflexivity.
  - vm_compute. reflexivity.
Qed.

Lemma derived_height_witness :
  (0 < videoWidth small_video < 2 ^ 32 /\ 0 <= videoHeight small_video < 2 ^ 32
   /\ 50 <= 150 <= 300)
  /\ exists h,
       canvasHeight small_video 150 = num h
       /\ integer_value (canvasHeight small_video 150) = Some h
       /\ videoHeight small_video * 150 / (2 * videoWidth small_video) - 1 <= h
          <= videoHeight small_video * 150 / (2 * videoWidth small_video)
       /\ ((videoHeight small_video * 150) mod (2 * videoWidth small_video) <> 0 ->
           h = videoHeight small_video * 150 / (2 * videoWidth small_video))
       /\ (forall w c,
              videoRef w = Some small_video -> canvasRef w = Some c ->
              context2d c = true -> resolution (state w) = 150 -> h < 2 ^ 31 ->
              exists c', canvasRef (convertToAscii w) = Some c'
                         /\ height c' = h /\ width c' = 150).
Proof.
  assert (H1 : 0 < videoWidth small_video < 2 ^ 32) by (cbn; lia).
  assert (H2 : 0 <= videoHeight small_video < 2 ^ 32) by (cbn; lia).
  assert (H3 : 50 <= 150 <= 300) by lia.
  split; [exact (conj H1 (conj H2 H3))|].
  exact (proj1 derived_height small_video 150 H1 H2 H3).
Defined.

(** C3, as stated, fails: a 3840 by 64 source has positive native width, the
    width 50 is in the range of the control, and the derived height is 0. *)
Lemma flat_source_height_zero :
  ~ (0 < videoWidth flat_video -> 50 <= 50 <= 300 ->
     exists h, integer_value (canvasHeight flat_video 50) = Some h /\ 0 < h).
Proof.
  intros H. destruct (H ltac:(reflexivity) ltac:(lia)) as [h [Eh Hh]].
  vm_compute in Eh. injection Eh as <-. lia.
Qed.

(** C3, amended: for a source of positive native width and a width of the
    control the derived height is a non-negative integer.  It is zero
    whenever [videoHeight * width < 2 * videoWidth] and at least 1 whenever
    [videoHeight * width > 2 * videoWidth].  With height zero the cycle sets
    no frame text, so the previous one stays; a cycle that reads pixels back
    has a height of at least 1. *)
Theorem derived_height_nonnegative (v : Video) (W : Z) :
  0 < videoWidth v < 2 ^ 32 -> 0 <= videoHeight v < 2 ^ 32 -> 50 <= W <= 300 ->
  exists h,
    integer_value (canvasHeight v W) = Some h
    /\ 0 <= h
    /\ (videoHeight v * W < 2 * videoWidth v -> h = 0)
    /\ (2 * videoWidth v < videoHeight v * W -> 1 <= h)
    /\ (h = 0 ->
        forall w c,
          videoRef w = Some v -> canvasRef w = Some c -> context2d c = true ->
          resolution (state w) = W ->
          state (convertToAscii w) = state w)
    /\ (forall data,
           getImageData v (to_long (num W)) (to_long (canvasHeight v W)) = Normal data ->
           1 <= h).
Proof.
  intros Hw Hh HW.
  destruct (canvasHeight_exact v W Hw Hh ltac:(change (2 ^ 9) with 512; lia))
    as [h [Eh [Hh0 Hb]]].
  assert (Hint : integer_value (canvasHeight v W) = Some h).
  { rewrite Eh. apply integer_value_num. split; [lia|].
    apply Z.lt_trans with (2 ^ 41); [lia|reflexivity]. }
  assert (Htr : truncate (canvasHeight v W) = Some h).
  { rewrite Eh. apply truncate_num. split; [lia|].
    apply Z.lt_trans with (2 ^ 41); [lia|reflexivity]. }
  exists h. split; [exact Hint|]. split; [lia|]. split; [intros; nia|].
  split; [intros; nia|]. split.
  - intros E0 w c Hv Hc Hctx Hres.
    apply (convertToAscii_throws w v c Hv Hc Hctx).
    rewrite Hres. unfold to_long. rewrite Htr, E0. reflexivity.
  - intros data Hd. destruct (getImageData_Normal _ _ _ _ Hd) as [h' [Ht [Hnz _]]].
    assert (h' = h) by congruence. subst h'.
    assert (h <> 0); [|lia].
    intros E0. apply Hnz. unfold to_long. rewrite Htr, E0. reflexivity.
Qed.

Lemma derived_height_nonnegative_witness :
  (0 < videoWidth hd_video < 2 ^ 32 /\ 0 <= videoHeight hd_video < 2 ^ 32
   /\ 50 <= 150 <= 300)
  /\ (exists h,
         integer_value (canvasHeight hd_video 150) = Some h
         /\ 0 <= h
         /\ (videoHeight hd_video * 150 < 2 * videoWidth hd_video -> h = 0)
         /\ (2 * videoWidth hd_video < videoHeight hd_video * 150 -> 1 <= h)
         /\ (h = 0 ->
             forall w c,
               videoRef w = Some hd_video -> canvasRef w = Some c -> context2d c = true ->
               resolution (state w) = 150 ->
               state (convertToAscii w) = state w)
         /\ (forall data,
                getImageData hd_video (to_long (num 150))
                  (to_long (canvasHeight hd_video 150)) = Normal data ->
                1 <= h))
  /\ (exists h, integer_value (canvasHeight flat_video 50) = Some h /\ h = 0).
Proof.
  assert (H1 : 0 < videoWidth hd_video < 2 ^ 32) by (cbn; lia).
  assert (H2 : 0 <= videoHeight hd_video < 2 ^ 32) by (cbn; lia).
  assert (H3 : 50 <= 150 <= 300) by lia.
  split; [exact (conj H1 (conj H2 H3))|].
  split; [exact (derived_height_nonnegative hd_video 150 H1 H2 H3)|].
  assert (F1 : 0 < videoWidth flat_video < 2 ^ 32) by (cbn; lia).
  assert (F2 : 0 <= videoHeight flat_video < 2 ^ 32) by (cbn; lia).
  assert (F3 : 50 <= 50 <= 300) by lia.
  destruct (derived_height_nonnegative flat_video 50 F1 F2 F3) as [h [Eh [_ [Hz _]]]].
  exists h. split; [exact Eh|]. apply Hz. cbn. lia.
Defined.

Lemma convertToAscii_scheduler (w : World) :
  animationFrameId (convertToAscii w) = animationFrameId w
  /\ pending (convertToAscii w) = pending w
  /\ next_handle (convertToAscii w) = next_handle w.
Proof.
  unfold convertToAscii.
  destruct (videoRef w) as [v|]; [|repeat split].
  destruct (canvasRef w) as [c|]; [|repeat split].
  destruct (context2d c); cbn [negb]; [|repeat split].
  destruct (getImageData _ _ _); [destruct (loop_bound _)|]; repeat split.
Qed.

(** C8, as stated, fails: when the drawing surface cannot be acquired the
    cycle reports no failure at all.  A call of [convertToAscii] returns no
    value and lets no exception escape, so a failure could only show on the
    console; with a canvas that yields no context the call returns at
    line 58 and the console is as it was. *)
Lemma surface_failure_is_silent :
  ~ (context2d no_context_canvas = false ->
     console (convertToAscii (mounted hd_video no_context_canvas))
     <> console (mounted hd_video no_context_canvas)).
Proof. intros H. apply (H eq_refl). reflexivity. Qed.

(** C8, amended: without a video or canvas element or without a drawing
    context the cycle returns silently and changes nothing; with both
    elements, a context and a source of zero-area native size the read-back
    throws, and the handler logs the one line "Failed to get image data:".
    In every one of these cases the cycle ends normally, sets no frame text
    and leaves the state as it was, and inside the render loop the next
    frame is still requested.  No error named SourceUnavailable exists. *)
Theorem source_unavailable (w : World) :
  videoRef w = None
  \/ canvasRef w = None
  \/ (exists c, canvasRef w = Some c /\ context2d c = false)
  \/ (exists v, videoRef w = Some v
                /\ (videoWidth v = 0 \/ videoHeight v = 0)
                /\ 0 <= videoWidth v < 2 ^ 32 /\ 0 <= videoHeight v < 2 ^ 32
                /\ 0 <= resolution (state w) < 2 ^ 32) ->
  state (convertToAscii w) = state w
  /\ ((videoRef w = None \/ canvasRef w = None
       \/ exists c, canvasRef w = Some c /\ context2d c = false) ->
      convertToAscii w = w)
  /\ (forall v c,
         videoRef w = Some v -> canvasRef w = Some c -> context2d c = true ->
         console (convertToAscii w) = console w ++ ["Failed to get image data:"%string])
  /\ asciiArt (state (animate w)) = asciiArt (state w)
  /\ animationFrameId (animate w) = Some (next_handle w)
  /\ In (next_handle w) (pending (animate w)).
Proof.
  intros H.
  assert (Hsilent : (videoRef w = None \/ canvasRef w = None
                     \/ exists c, canvasRef w = Some c /\ context2d c = false) ->
                    convertToAscii w = w).
  { intros [Hv|[Hc|[c [Hc Hctx]]]]; unfold convertToAscii.
    - now rewrite Hv.
    - rewrite Hc. now destruct (videoRef w).
    - rewrite Hc, Hctx. now destruct (videoRef w). }
  assert (Hlog : forall v c,
             videoRef w = Some v -> canvasRef w = Some c -> context2d c = true ->
             state (convertToAscii w) = state w
             /\ console (convertToAscii w)
                = console w ++ ["Failed to get image data:"%string]).
  { intros v c Hv Hc Hctx.
    destruct H as [Hv'|[Hc'|[[c' [Hc' Hctx']]|[v' [Hv' [Hz [Hw [Hh HW]]]]]]]];
      try congruence.
    assert (v' = v) by congruence. subst v'.
    apply (convertToAscii_throws w v c Hv Hc Hctx).
    apply (zero_area_height v (resolution (state w)) Hz).
    - split; [lia|]. apply Z.lt_trans with (2 ^ 32); [lia|reflexivity].
    - split; [lia|]. apply Z.lt_trans with (2 ^ 32); [lia|reflexivity].
    - split; [lia|]. apply Z.lt_trans with (2 ^ 32); [lia|reflexivity]. }
  assert (Hs : state (convertToAscii w) = state w).
  { destruct (videoRef w) as [v|] eqn:Hv; [|now rewrite Hsilent by auto].
    destruct (canvasRef w) as [c|] eqn:Hc; [|now rewrite Hsilent by auto].
    destruct (context2d c) eqn:Hctx.
    - exact (proj1 (Hlog v c eq_refl eq_refl Hctx)).
    - rewrite Hsilent; [reflexivity|]. right. right. exists c. auto. }
  split; [exact Hs|]. split; [exact Hsilent|]. split.
  - intros v c Hv Hc Hctx. exact (proj2 (Hlog v c Hv Hc Hctx)).
  - destruct (convertToAscii_scheduler w) as [_ [Hp Hn]].
    unfold animate, requestAnimationFrame, with_frame.
    cbn [state animationFrameId pending]. rewrite Hs, Hp, Hn.
    repeat split. apply in_or_app. right. left. reflexivity.
Qed.

Lemma source_unavailable_witness :
  (exists v, videoRef (mounted unloaded_video blank_canvas) = Some v
             /\ (videoWidth v = 0 \/ videoHeight v = 0)
             /\ 0 <= videoWidth v < 2 ^ 32 /\ 0 <= videoHeight v < 2 ^ 32
             /\ 0 <= resolution (state (mounted unloaded_video blank_canvas)) < 2 ^ 32)
  /\ state (convertToAscii (mounted unloaded_video blank_canvas))
     = state (mounted unloaded_video blank_canvas)
  /\ console (convertToAscii (mounted unloaded_video blank_canvas))
     = console (mounted unloaded_video blank_canvas)
       ++ ["Failed to get image data:"%string]
  /\ In (next_handle (mounted unloaded_video blank_canvas))
       (pending (animate (mounted unloaded_video blank_canvas))).
Proof.
  assert (H : exists v, videoRef (mounted unloaded_video blank_canvas) = Some v
             /\ (videoWidth v = 0 \/ videoHeight v = 0)
             /\ 0 <= videoWidth v < 2 ^ 32 /\ 0 <= videoHeight v < 2 ^ 32
             /\ 0 <= resolution (state (mounted unloaded_video blank_canvas)) < 2 ^ 32).
  { exists unloaded_video. split; [reflexivity|]. split; [left; reflexivity|].
    change (videoWidth unloaded_video) with 0.
    change (videoHeight unloaded_video) with 0.
    change (resolution (state (mounted unloaded_video blank_canvas))) with 150.
    lia. }
  split; [exact H|].
  pose proof (source_unavailable (mounted unloaded_video blank_canvas)
                (or_intror (or_intror (or_intror H)))) as R.
  split; [exact (proj1 R)|].
  split; [exact (proj1 (proj2 (proj2 R)) unloaded_video blank_canvas
                   eq_refl eq_refl eq_refl)|].
  exact (proj2 (proj2 (proj2 (proj2 (proj2 R))))).
Defined.

(** ** Further properties of the quantizer *)

Lemma exact_ok_spec (i : float) (lum : Z) :
  0 <= lum <= 25500 ->
  index_ok i = true -> exact_ok i (Uint63.of_Z lum) = true ->
  exists iz,
    0 <= iz <= 63 /\ i = num iz
    /\ (iz = lum * 64 / 25500 \/ (lum mod 6375 = 0 /\ iz + 1 = lum * 64 / 25500)).
Proof.
  intros Hl Hok Hex. unfold index_ok in Hok. apply andb_true_iff in Hok as [Hle Heq].
  apply Uint63.leb_spec in Hle. change (Uint63.to_Z 63) with 63 in Hle.
  apply FloatAxioms.Leibniz.eqb_spec in Heq.
  pose proof (Uint63.to_Z_bounded (small_int i)) as Hb.
  exists (Uint63.to_Z (small_int i)). split; [lia|]. split.
  { unfold num. rewrite Uint63.of_to_Z. exact Heq. }
  assert (Elum : Uint63.to_Z (Uint63.of_Z lum) = lum).
  { rewrite Uint63.of_Z_spec. apply Z.mod_small. change wB with (2 ^ 63). lia. }
  assert (Eex : Uint63.to_Z (Uint63.of_Z lum * 64 / 25500)%uint63 = lum * 64 / 25500).
  { rewrite Uint63.div_spec, Uint63.mul_spec, Elum.
    change (Uint63.to_Z 64) with 64. change (Uint63.to_Z 25500) with 25500.
    rewrite Z.mod_small by (change wB with (2 ^ 63); lia). reflexivity. }
  unfold exact_ok in Hex. apply orb_true_iff in Hex as [Hex|Hex].
  - left. apply Uint63.eqb_spec in Hex. rewrite Hex. exact Eex.
  - right. apply andb_true_iff in Hex as [Hmod Hsucc].
    apply Uint63.eqb_spec in Hmod, Hsucc. split.
    + apply (f_equal Uint63.to_Z) in Hmod. rewrite Uint63.mod_spec, Elum in Hmod.
      exact Hmod.
    + rewrite <- Eex, <- Hsucc, Uint63.add_spec. change (Uint63.to_Z 1) with 1.
      rewrite Z.mod_small by (change wB with (2 ^ 63); lia). reflexivity.
Qed.

(** X1: on bytes the quantizer returns the index of exact arithmetic,
    [floor((21 R + 72 G + 7 B) * 64 / 25500)], except that it may return one
    less when that quotient is an integer (luminance a multiple of 63.75):
    rounding only shows on the boundary between two glyphs. *)
Theorem quantizer_exact (r g b : Z) :
  0 <= r <= 255 -> 0 <= g <= 255 -> 0 <= b <= 255 ->
  exists i,
    integer_value (quantize r g b) = Some i
    /\ (i = exact_index r g b
        \/ (luminance r g b mod 6375 = 0 /\ i = exact_index r g b - 1)).
Proof.
  intros Hr Hg Hb.
  destruct (cube_checked r g b Hr Hg Hb) as [Hok [Hex _]].
  destruct (exact_ok_spec _ (luminance r g b) ltac:(unfold luminance; lia) Hok Hex)
    as [i [Hi [E Hcase]]].
  exists i. split.
  - unfold quantize. rewrite rampIndex_index64, E. apply table_entry. lia.
  - unfold exact_index. destruct Hcase as [->|[Hm Hs]]; [left; reflexivity|right].
    split; [exact Hm|lia].
Qed.

Lemma quantizer_exact_witness :
  exists i,
    integer_value (quantize 200 100 50) = Some i
    /\ (i = exact_index 200 100 50
        \/ (luminance 200 100 50 mod 6375 = 0 /\ i = exact_index 200 100 50 - 1)).
Proof. apply (quantizer_exact 200 100 50); lia. Defined.

Lemma dollar_checked :
  all_from 64 0 (fun i =>
    match String.get (Z.to_nat i) ASCII_RAMP with
    | Some c => negb (Ascii.eqb c "$"%char)
    | None => false
    end) = true.
Proof. vm_compute. reflexivity. Qed.

(** X2: the last glyph of the ramp, the dollar sign, is never produced: on
    bytes the index stays at or below [N - 2]. *)
Theorem brightest_glyph_unreachable (r g b : Z) :
  0 <= r <= 255 -> 0 <= g <= 255 -> 0 <= b <= 255 ->
  String.get (String.length ASCII_RAMP - 1) ASCII_RAMP = Some "$"%char
  /\ (exists i, integer_value (quantize r g b) = Some i
                /\ i <= Z.of_nat (String.length ASCII_RAMP) - 2)
  /\ string_at ASCII_RAMP (quantize r g b) <> Some "$"%char.
Proof.
  intros Hr Hg Hb. split; [reflexivity|].
  destruct (quantize_integer r g b Hr Hg Hb) as [i [Hi [E Ei]]].
  split.
  - exists i. split; [exact Ei|]. change (Z.of_nat (String.length ASCII_RAMP) - 2) with 63. lia.
  - destruct (table_entry i ltac:(lia)) as [_ [c [Hc [Hget _]]]].
    rewrite E, Hc. intros Heq. injection Heq as ->.
    pose proof (all_from_spec _ _ _ dollar_checked i ltac:(lia)) as Hd.
    cbv beta in Hd. rewrite Hget in Hd. discriminate.
Qed.

Lemma brightest_glyph_unreachable_witness :
  String.get (String.length ASCII_RAMP - 1) ASCII_RAMP = Some "$"%char
  /\ (exists i, integer_value (quantize 255 255 255) = Some i
                /\ i <= Z.of_nat (String.length ASCII_RAMP) - 2)
  /\ string_at ASCII_RAMP (quantize 255 255 255) <> Some "$"%char.
Proof. apply (brightest_glyph_unreachable 255 255 255); lia. Defined.

(** ** Pixel data *)

Lemma length_append (a b : string) :
  String.length (a ++ b) = (String.length a + String.length b)%nat.
Proof. induction a as [|x a IH]; cbn; [reflexivity|]. now rewrite IH. Qed.

Lemma length_frame_of_rows (rows : list string) (n : nat) :
  (forall row, In row rows -> String.length row = n) ->
  String.length (frame_of_rows rows) = (List.length rows * (n + 1))%nat.
Proof.
  induction rows as [|r rows IH]; intros H; cbn [frame_of_rows List.length]; [reflexivity|].
  rewrite length_append. cbn [String.length].
  rewrite IH by (intros row Hr; apply H; now right).
  rewrite (H r) by now left. lia.
Qed.

Lemma typed_get_byte (data : list Z) (off : Z) :
  Forall (fun c => 0 <= c <= 255) data ->
  0 <= off < Z.of_nat (List.length data) ->
  exists c, typed_get data off = Some c /\ 0 <= c <= 255.
Proof.
  intros Hall Hoff. unfold typed_get.
  destruct (off <? 0) eqn:E; [apply Z.ltb_lt in E; lia|].
  destruct (nth_error data (Z.to_nat off)) as [c|] eqn:En.
  - exists c. split; [reflexivity|].
    apply nth_error_In in En. exact (proj1 (Forall_forall _ _) Hall c En).
  - apply nth_error_None in En. lia.
Qed.

Lemma cell_offset (W y x : Z) (H : nat) :
  0 <= y < Z.of_nat H -> 0 <= x < W ->
  0 <= (y * W + x) * 4 /\ (y * W + x) * 4 + 3 < 4 * W * Z.of_nat H.
Proof. intros Hy Hx. nia. Qed.

Lemma pixel_index_value (data : list Z) (W y x : Z) (H : nat) :
  image_data_ok data W H -> 0 <= y < Z.of_nat H -> 0 <= x < W ->
  exists i, 0 <= i <= 63 /\ pixel_index data W y x = num i
            /\ pixel_level data W y x = i.
Proof.
  intros [Hlen Hall] Hy Hx. destruct (cell_offset W y x H Hy Hx) as [H0 H3].
  unfold pixel_level, pixel_index.
  destruct (typed_get_byte data ((y * W + x) * 4) Hall ltac:(lia)) as [r [-> Hr]].
  destruct (typed_get_byte data ((y * W + x) * 4 + 1) Hall ltac:(lia)) as [g [-> Hg]].
  destruct (typed_get_byte data ((y * W + x) * 4 + 2) Hall ltac:(lia)) as [b [-> Hb]].
  cbn [to_number]. change (rampIndex (num r) (num g) (num b)) with (quantize r g b).
  destruct (quantize_integer r g b Hr Hg Hb) as [i [Hi [E Ei]]].
  exists i. rewrite Ei. auto.
Qed.

Lemma row_loop_ext (f g : Z -> Z -> float) (y : Z) (n : nat) :
  forall x acc,
    (forall x', x <= x' < x + Z.of_nat n -> f y x' = g y x') ->
    row_loop f y n x acc = row_loop g y n x acc.
Proof.
  induction n as [|n IH]; intros x acc H; cbn [row_loop]; [reflexivity|].
  rewrite (H x) by lia. apply IH. intros x' Hx'. apply H. lia.
Qed.

Lemma frame_loop_ext (f g : Z -> Z -> float) (W : Z) (n : nat) :
  forall y acc,
    (forall y' x', y <= y' < y + Z.of_nat n -> 0 <= x' < W -> f y' x' = g y' x') ->
    frame_loop f W n y acc = frame_loop g W n y acc.
Proof.
  induction n as [|n IH]; intros y acc H; cbn [frame_loop]; [reflexivity|].
  rewrite (row_loop_ext f g y) by (intros x' Hx'; apply H; lia).
  apply IH. intros y' x' Hy' Hx'. apply H; lia.
Qed.

(** X3: on a well-formed pixel buffer the text is the grid of the glyphs of
    the pixels' indices, [H] rows of [W] glyphs, and it has [H * (W + 1)]
    characters. *)
Theorem image_to_text (data : list Z) (W : Z) (H : nat) :
  image_data_ok data W H ->
  assemble (pixel_index data W) W H
  = frame_of_rows (map (glyph_row (pixel_level data W) W) (zrange 0 H))
  /\ String.length (assemble (pixel_index data W) W H) = (H * (Z.to_nat W + 1))%nat.
Proof.
  intros Hok.
  assert (E : assemble (pixel_index data W) W H
              = frame_of_rows (map (glyph_row (pixel_level data W) W) (zrange 0 H))).
  { unfold assemble.
    rewrite (frame_loop_ext _ (fun y x => num (pixel_level data W y x))).
    - rewrite frame_loop_grid; [reflexivity|].
      intros y x Hy Hx.
      destruct (pixel_index_value data W y x H Hok ltac:(lia) Hx) as [i [Hi [_ ->]]]. lia.
    - intros y x Hy Hx.
      destruct (pixel_index_value data W y x H Hok ltac:(lia) Hx) as [i [Hi [-> ->]]].
      reflexivity. }
  split; [exact E|]. rewrite E.
  rewrite (length_frame_of_rows _ (Z.to_nat W)).
  - now rewrite length_map, length_zrange.
  - intros row Hrow. apply in_map_iff in Hrow as [y [<- _]].
    unfold glyph_row. now rewrite length_string_of_list_ascii, length_map, length_zrange.
Qed.

Lemma image_to_text_witness :
  image_data_ok (repeat 128 24) 3 2
  /\ assemble (pixel_index (repeat 128 24) 3) 3 2
     = frame_of_rows (map (glyph_row (pixel_level (repeat 128 24) 3) 3) (zrange 0 2))
  /\ String.length (assemble (pixel_index (repeat 128 24) 3) 3 2)
     = (2 * (Z.to_nat 3 + 1))%nat.
Proof.
  assert (H : image_data_ok (repeat 128 24) 3 2).
  { split; [reflexivity|]. apply Forall_forall. intros c Hc.
    apply repeat_spec in Hc. subst c. lia. }
  split; [exact H|]. exact (image_to_text (repeat 128 24) 3 2 H).
Defined.

Lemma typed_get_repeat (k : Z) (n : nat) (off : Z) :
  0 <= off < Z.of_nat n -> typed_get (repeat k n) off = Some k.
Proof.
  intros Hoff. unfold typed_get.
  destruct (off <? 0) eqn:E; [apply Z.ltb_lt in E; lia|].
  apply nth_error_repeat. lia.
Qed.

(** X4: a frame of one solid grey [k] becomes a text whose every glyph is
    the glyph of [k], at any width and height; for mid-grey, 128, that is
    [ASCII_RAMP[32]]. *)
Theorem solid_gray_text (k W : Z) (H : nat) :
  0 <= k <= 255 -> 0 <= W ->
  exists i,
    integer_value (quantize k k k) = Some i
    /\ (k = 128 -> i = 32)
    /\ assemble (pixel_index (repeat k (Z.to_nat (4 * W * Z.of_nat H))) W) W H
       = frame_of_rows (map (glyph_row (fun _ _ => i) W) (zrange 0 H)).
Proof.
  intros Hk HW. destruct (quantize_integer k k k Hk Hk Hk) as [i [Hi [E Ei]]].
  exists i. split; [exact Ei|]. split.
  { intros ->. assert (Hc : integer_value (quantize 128 128 128) = Some 32)
      by (vm_compute; reflexivity). congruence. }
  unfold assemble.
  rewrite (frame_loop_ext _ (fun _ _ => num i)).
  - apply (frame_loop_grid (fun _ _ => i)). intros; lia.
  - intros y x Hy Hx. destruct (cell_offset W y x H ltac:(lia) Hx) as [H0 H3].
    unfold pixel_index. rewrite !typed_get_repeat by lia. exact E.
Qed.

Lemma solid_gray_text_witness :
  exists i,
    integer_value (quantize 128 128 128) = Some i
    /\ (128 = 128 -> i = 32)
    /\ assemble (pixel_index (repeat 128 (Z.to_nat (4 * 150 * Z.of_nat 42))) 150) 150 42
       = frame_of_rows (map (glyph_row (fun _ _ => i) 150) (zrange 0 42)).
Proof. apply (solid_gray_text 128 150 42); lia. Defined.

(** X5: the alpha byte of a pixel has no influence on the text. *)
Theorem alpha_ignored (data data' : list Z) (W : Z) (H : nat) :
  0 <= W ->
  (forall n, 0 <= n -> n mod 4 <> 3 -> typed_get data n = typed_get data' n) ->
  assemble (pixel_index data W) W H = assemble (pixel_index data' W) W H.
Proof.
  intros HW Hsame. unfold assemble. apply frame_loop_ext.
  intros y x Hy Hx. unfold pixel_index.
  assert (H0 : 0 <= y * W + x) by nia.
  rewrite (Hsame ((y * W + x) * 4)), (Hsame ((y * W + x) * 4 + 1)),
    (Hsame ((y * W + x) * 4 + 2)); try lia; try reflexivity.
  - rewrite Z.add_comm, Z.mod_add by lia. cbn. lia.
  - rewrite Z.add_comm, Z.mod_add by lia. cbn. lia.
  - rewrite Z.mod_mul by lia. lia.
Qed.

Lemma alpha_ignored_witness :
  0 <= 1
  /\ (forall n, 0 <= n -> n mod 4 <> 3 ->
                typed_get [10; 20; 30; 255] n = typed_get [10; 20; 30; 0] n)
  /\ assemble (pixel_index [10; 20; 30; 255] 1) 1 1
     = assemble (pixel_index [10; 20; 30; 0] 1) 1 1.
Proof.
  assert (Hs : forall n, 0 <= n -> n mod 4 <> 3 ->
                typed_get [10; 20; 30; 255] n = typed_get [10; 20; 30; 0] n).
  { intros n Hn Hm. unfold typed_get. destruct (n <? 0); [reflexivity|].
    destruct (Z.to_nat n) as [|[|[|[|m]]]] eqn:E; try reflexivity.
    exfalso. apply Hm. replace n with 3 by lia. reflexivity. }
  split; [lia|]. split; [exact Hs|].
  exact (alpha_ignored [10; 20; 30; 255] [10; 20; 30; 0] 1 1 ltac:(lia) Hs).
Defined.

(** ** The render loop *)

Lemma cancel_current_queue (w : World) :
  queue_ok w ->
  pending (cancel_current w) = []
  /\ animationFrameId (cancel_current w) = animationFrameId w
  /\ next_handle (cancel_current w) = next_handle w
  /\ state (cancel_current w) = state w
  /\ videoRef (cancel_current w) = videoRef w.
Proof.
  intros [Hn [Hid Hp]]. unfold cancel_current.
  destruct Hp as [Hp|[id [Hp Hc]]].
  - destruct (animationFrameId w) as [id|] eqn:Ec; [|repeat split; auto].
    destruct (id =? 0); [repeat split; auto|].
    unfold cancelAnimationFrame, with_frame. cbn. rewrite Hp. repeat split; auto.
  - rewrite Hc. specialize (Hid id Hc).
    destruct (id =? 0) eqn:E; [apply Z.eqb_eq in E; lia|].
    unfold cancelAnimationFrame, with_frame. cbn. rewrite Hp. cbn.
    rewrite Z.eqb_refl. cbn. repeat split. exact Hc.
Qed.

Lemma scheduler_ok_playing (w : World) (n : Z) :
  isPlaying (state w) = true -> pending w = [n] -> animationFrameId w = Some n ->
  next_handle w = n + 1 -> 0 < n -> scheduler_ok w.
Proof.
  intros Hplay Hp Hc Hn Hpos. unfold scheduler_ok, queue_ok. rewrite Hp, Hc, Hn, Hplay.
  split; [split; [lia|split]|split].
  - intros i Hi. injection Hi as <-. lia.
  - right. exists n. split; reflexivity.
  - intros _. exists n. split; reflexivity.
  - discriminate.
Qed.

Lemma scheduler_ok_idle (w : World) :
  isPlaying (state w) = false -> pending w = [] -> 0 < next_handle w ->
  (forall i, animationFrameId w = Some i -> 0 < i < next_handle w) ->
  scheduler_ok w.
Proof.
  intros Hplay Hp Hn Hid. unfold scheduler_ok, queue_ok. rewrite Hp, Hplay.
  split; [split; [exact Hn|split; [exact Hid|left; reflexivity]]|split].
  - discriminate.
  - reflexivity.
Qed.

Lemma effect_cycle_ok (w : World) :
  queue_ok w -> scheduler_ok (effect (effect_cleanup w)).
Proof.
  intros Hq. unfold effect_cleanup.
  destruct (cancel_current_queue w Hq) as [Hp [Hc [Hn [Hs _]]]].
  destruct Hq as [Hpos [Hid _]].
  set (w1 := cancel_current w) in *.
  unfold effect. destruct (isPlaying (state w1)) eqn:Eplay.
  - assert (Ew : pending (video_play w1) = [] /\ next_handle (video_play w1) = next_handle w
                 /\ state (video_play w1) = state w1).
    { unfold video_play. destruct (videoRef w1); cbn; auto. }
    destruct Ew as [Ep [En Es]].
    apply (scheduler_ok_playing _ (next_handle w));
      unfold requestAnimationFrame, with_frame; cbn;
      rewrite ?Ep, ?En, ?Es; auto.
  - assert (Ew : pending (video_pause w1) = pending w1
                 /\ animationFrameId (video_pause w1) = animationFrameId w1
                 /\ next_handle (video_pause w1) = next_handle w1
                 /\ state (video_pause w1) = state w1).
    { unfold video_pause. destruct (videoRef w1); repeat split. }
    destruct Ew as [Ep1 [Ec1 [En1 Es1]]].
    assert (Hq1 : queue_ok (video_pause w1)).
    { unfold queue_ok. rewrite Ep1, Ec1, En1, Hp, Hc, Hn.
      split; [exact Hpos|split; [exact Hid|left; reflexivity]]. }
    destruct (cancel_current_queue _ Hq1) as [Hp2 [Hc2 [Hn2 [Hs2 _]]]].
    destruct Hq1 as [Hpos1 [Hid1 _]].
    apply scheduler_ok_idle; rewrite ?Hp2, ?Hc2, ?Hn2, ?Hs2, ?Es1; auto.
Qed.

Lemma commit_ok (before : State) (w : World) :
  queue_ok w ->
  (isPlaying before = isPlaying (state w) -> scheduler_ok w) ->
  scheduler_ok (commit before w).
Proof.
  intros Hq Hsame. unfold commit.
  destruct (Bool.eqb (isPlaying before) (isPlaying (state w))) eqn:E; cbn [andb].
  - destruct (resolution before =? resolution (state w)).
    + apply Hsame. now apply Bool.eqb_prop.
    + apply effect_cycle_ok, Hq.
  - apply effect_cycle_ok, Hq.
Qed.

Lemma mounted_ok (v : Video) (c : Canvas) : scheduler_ok (mounted v c).
Proof.
  unfold mounted, effect. cbn [state isPlaying initial_state].
  apply scheduler_ok_idle; cbn; try reflexivity; try lia. discriminate.
Qed.

(** A handler that leaves the queue alone. *)
Lemma quiet_handler_ok (w w' : World) :
  scheduler_ok w ->
  animationFrameId w' = animationFrameId w ->
  pending w' = pending w ->
  next_handle w' = next_handle w ->
  scheduler_ok (commit (state w) w').
Proof.
  intros [[Hn [Hid Hp]] [Hplay Hstop]] Ec Ep En.
  assert (Hq : queue_ok w').
  { unfold queue_ok. rewrite Ec, Ep, En. auto. }
  apply commit_ok; [exact Hq|].
  intros Esame. unfold scheduler_ok. split; [exact Hq|].
  rewrite Ec, Ep, <- Esame. auto.
Qed.

Lemma step_ok (w : World) (e : event) : scheduler_ok w -> scheduler_ok (step w e).
Proof.
  intros Hok. unfold step.
  destruct e as [files| | | |raw|id|v]; cbn [handle].
  - apply quiet_handler_ok; [exact Hok| | |]; destruct files; reflexivity.
  - unfold handleVideoLoaded. destruct (videoRef w) as [v|] eqn:Ev.
    + destruct (convertToAscii_scheduler
                  (with_state (setDimensions (videoWidth v, videoHeight v) (state w)) w))
        as [E1 [E2 E3]].
      apply quiet_handler_ok; assumption.
    + apply quiet_handler_ok; [exact Hok| | |]; reflexivity.
  - unfold handleVideoEnded. cbv zeta. cbn [videoRef with_state].
    destruct (videoRef w) as [v|] eqn:Ev.
    + destruct (convertToAscii_scheduler
                  (with_video (set_currentTime 0 v)
                     (with_state (setIsPlaying false (state w)) w)))
        as [E1 [E2 E3]].
      apply quiet_handler_ok; assumption.
    + apply quiet_handler_ok; [exact Hok| | |]; reflexivity.
  - unfold togglePlayPause. destruct (videoRef w) as [v|].
    + destruct (String.eqb (src v) EmptyString);
        apply quiet_handler_ok; try exact Hok; reflexivity.
    + apply quiet_handler_ok; [exact Hok| | |]; reflexivity.
  - apply quiet_handler_ok; [exact Hok| | |]; reflexivity.
  - unfold run_frame. destruct (existsb (Z.eqb id) (pending w)) eqn:Ex.
    2:{ apply quiet_handler_ok; [exact Hok| | |]; reflexivity. }
    destruct Hok as [[Hn [Hid Hp]] [Hplay Hstop]].
    destruct (isPlaying (state w)) eqn:Eplay.
    2:{ rewrite (Hstop eq_refl) in Ex. discriminate. }
    destruct (Hplay eq_refl) as [id' [Hp' Hc']].
    rewrite Hp' in Ex. cbn in Ex. rewrite orb_false_r in Ex. apply Z.eqb_eq in Ex. subst id'.
    set (w0 := with_frame (animationFrameId w)
                 (filter (fun h => negb (h =? id)) (pending w)) (next_handle w) w).
    destruct (convertToAscii_scheduler w0) as [E1 [E2 E3]].
    destruct (convertToAscii_frame w0) as [text Es].
    assert (Ep0 : pending w0 = []).
    { unfold w0, with_frame. cbn. rewrite Hp'. cbn. now rewrite Z.eqb_refl. }
    assert (Hw : scheduler_ok (animate w0)).
    { apply (scheduler_ok_playing _ (next_handle w));
        unfold animate, requestAnimationFrame, with_frame; cbn;
        rewrite ?E2, ?E3, ?Es, ?Ep0; auto. }
    apply commit_ok; [exact (proj1 Hw)|]. intros _. exact Hw.
  - unfold frame_decoded. destruct (videoRef w);
      apply quiet_handler_ok; try exact Hok; reflexivity.
Qed.

Lemma run_ok (es : list event) : forall w, scheduler_ok w -> scheduler_ok (run w es).
Proof.
  induction es as [|e es IH]; intros w Hw; cbn [run fold_left]; [exact Hw|].
  apply IH, step_ok, Hw.
Qed.

(** X6: whatever happens to the mounted component, at most one
    animation-frame callback is queued: exactly one, the one whose handle is
    stored, while playing, and none while not playing. *)
Theorem one_frame_in_flight (v : Video) (c : Canvas) (es : list event) :
  (List.length (pending (run (mounted v c) es)) <= 1)%nat
  /\ (isPlaying (state (run (mounted v c) es)) = true ->
      exists id, pending (run (mounted v c) es) = [id]
                 /\ animationFrameId (run (mounted v c) es) = Some id)
  /\ (isPlaying (state (run (mounted v c) es)) = false ->
      pending (run (mounted v c) es) = []).
Proof.
  destruct (run_ok es (mounted v c) (mounted_ok v c)) as [[_ [_ Hp]] [Hplay Hstop]].
  split; [|split; assumption].
  destruct Hp as [->|[id [-> _]]]; cbn; lia.
Qed.

Lemma one_frame_in_flight_witness :
  isPlaying (state (run (mounted hd_video blank_canvas) [PlayPauseClicked])) = true
  /\ exists id,
       pending (run (mounted hd_video blank_canvas) [PlayPauseClicked]) = [id]
       /\ animationFrameId (run (mounted hd_video blank_canvas) [PlayPauseClicked])
          = Some id.
Proof.
  assert (H : isPlaying (state (run (mounted hd_video blank_canvas) [PlayPauseClicked]))
              = true) by reflexivity.
  split; [exact H|].
  exact (proj1 (proj2 (one_frame_in_flight hd_video blank_canvas [PlayPauseClicked])) H).
Defined.

Lemma commit_same (w : World) : commit (state w) w = w.
Proof. unfold commit. now rewrite Bool.eqb_reflx, Z.eqb_refl. Qed.

(** A cycle reads the elements and the state, not the frame queue. *)
Lemma convertToAscii_with_frame (a : option Z) (p : list Z) (n : Z) (w : World) :
  state (convertToAscii (with_frame a p n w)) = state (convertToAscii w).
Proof.
  unfold convertToAscii. cbn [videoRef canvasRef state with_frame].
  destruct (videoRef w) as [v|]; [|reflexivity].
  destruct (canvasRef w) as [c|]; [|reflexivity].
  destruct (context2d c); cbn [negb]; [|reflexivity].
  destruct (getImageData _ _ _); [destruct (loop_bound _)|]; reflexivity.
Qed.

(** X7: the render loop advances and stops through the frame queue alone.
    While a callback is in flight, the frame that fires runs one conversion
    and queues exactly one successor, under the next handle (lines 92-95).
    When an event takes the component to [isPlaying = false], the clean-up
    of the effect cancels the callback in flight: the queue is empty, and
    when the time of that frame comes the browser finds nothing to run.
    [animate] itself has no test of [isPlaying]: run on the stopped
    component it would queue itself again under a fresh handle. *)
Theorem render_loop_frame (v : Video) (c : Canvas) (es : list event) (id : Z) :
  pending (run (mounted v c) es) = [id] ->
  (state (step (run (mounted v c) es) (AnimationFrame id))
   = state (convertToAscii (run (mounted v c) es))
   /\ pending (step (run (mounted v c) es) (AnimationFrame id))
      = [next_handle (run (mounted v c) es)]
   /\ animationFrameId (step (run (mounted v c) es) (AnimationFrame id))
      = Some (next_handle (run (mounted v c) es)))
  /\ (forall e,
         isPlaying (state (step (run (mounted v c) es) e)) = false ->
         pending (step (run (mounted v c) es) e) = []
         /\ step (step (run (mounted v c) es) e) (AnimationFrame id)
            = step (run (mounted v c) es) e
         /\ pending (animate (step (run (mounted v c) es) e))
            = [next_handle (step (run (mounted v c) es) e)]
         /\ isPlaying (state (animate (step (run (mounted v c) es) e))) = false).
Proof.
  intros Hp. set (w := run (mounted v c) es) in *.
  pose proof (run_ok es (mounted v c) (mounted_ok v c)) as Hok. fold w in Hok.
  split.
  - set (w0 := with_frame (animationFrameId w)
                 (filter (fun h => negb (h =? id)) (pending w)) (next_handle w) w).
    assert (Hrun : handle (AnimationFrame id) w = animate w0).
    { cbn [handle]. unfold run_frame, w0. rewrite Hp. cbn [existsb].
      rewrite Z.eqb_refl. reflexivity. }
    assert (Hp0 : pending w0 = []).
    { unfold w0, with_frame. cbn [pending]. rewrite Hp. cbn [filter].
      rewrite Z.eqb_refl. reflexivity. }
    destruct (convertToAscii_scheduler w0) as [_ [Hq Hn]].
    assert (Hs : state (animate w0) = state (convertToAscii w)).
    { unfold animate, requestAnimationFrame, with_frame. cbn [state].
      apply convertToAscii_with_frame. }
    destruct (convertToAscii_frame w) as [text Ht].
    assert (Hsame : step w (AnimationFrame id) = animate w0).
    { unfold step. rewrite Hrun. unfold commit. rewrite Hs, Ht.
      cbn [isPlaying resolution setAsciiArt].
      now rewrite Bool.eqb_reflx, Z.eqb_refl. }
    rewrite Hsame. split; [exact Hs|].
    unfold animate, requestAnimationFrame, with_frame. cbn [pending animationFrameId].
    rewrite Hq, Hn, Hp0. split; reflexivity.
  - intros e Hstop.
    destruct (step_ok w e Hok) as [_ [_ Hidle]].
    pose proof (Hidle Hstop) as Hempty.
    split; [exact Hempty|]. split.
    + unfold step at 1. cbn [handle]. unfold run_frame. rewrite Hempty. cbn [existsb].
      apply commit_same.
    + destruct (convertToAscii_scheduler (step w e)) as [_ [Hq Hn]].
      destruct (convertToAscii_frame (step w e)) as [text Hs].
      unfold animate, requestAnimationFrame, with_frame.
      cbn [pending animationFrameId state]. rewrite Hq, Hn, Hempty, Hs.
      split; [reflexivity|exact Hstop].
Qed.

Lemma render_loop_frame_witness :
  pending (run (mounted hd_video blank_canvas) [PlayPauseClicked]) = [1]
  /\ pending (step (run (mounted hd_video blank_canvas) [PlayPauseClicked])
                (AnimationFrame 1)) = [2]
  /\ pending (step (run (mounted hd_video blank_canvas) [PlayPauseClicked])
                PlayPauseClicked) = []
  /\ step (step (run (mounted hd_video blank_canvas) [PlayPauseClicked]) PlayPauseClicked)
       (AnimationFrame 1)
     = step (run (mounted hd_video blank_canvas) [PlayPauseClicked]) PlayPauseClicked.
Proof.
  assert (H1 : pending (run (mounted hd_video blank_canvas) [PlayPauseClicked]) = [1])
    by reflexivity.
  assert (H2 : isPlaying (state (step (run (mounted hd_video blank_canvas) [PlayPauseClicked])
                                   PlayPauseClicked)) = false) by reflexivity.
  pose proof (render_loop_frame hd_video blank_canvas [PlayPauseClicked] 1 H1) as [Ra Rb].
  split; [exact H1|]. split; [exact (proj1 (proj2 Ra))|].
  pose proof (Rb PlayPauseClicked H2) as R.
  split; [exact (proj1 R)|exact (proj1 (proj2 R))].
Defined.

(** X8: the play button does nothing while the video element has no source;
    otherwise it flips [isPlaying], touches nothing else of the state, and a
    second click restores the state. *)
Theorem play_button (w : World) :
  ((videoRef w = None \/ exists v, videoRef w = Some v /\ src v = EmptyString) ->
   togglePlayPause w = w)
  /\ (forall v, videoRef w = Some v -> src v <> EmptyString ->
                state (togglePlayPause w)
                = setIsPlaying (negb (isPlaying (state w))) (state w)
                /\ state (togglePlayPause (togglePlayPause w)) = state w).
Proof.
  split.
  - intros [Hv|[v [Hv Hs]]]; unfold togglePlayPause; rewrite Hv; [reflexivity|].
    rewrite Hs. reflexivity.
  - intros v Hv Hs. apply String.eqb_neq in Hs.
    assert (E : togglePlayPause w
                = with_state (setIsPlaying (negb (isPlaying (state w))) (state w)) w).
    { unfold togglePlayPause. now rewrite Hv, Hs. }
    split; [now rewrite E|].
    rewrite E. unfold togglePlayPause. cbn [videoRef with_state]. rewrite Hv, Hs.
    cbn. rewrite negb_involutive. destruct (state w); reflexivity.
Qed.

Lemma play_button_witness :
  state (togglePlayPause (mounted hd_video blank_canvas))
  = setIsPlaying (negb (isPlaying (state (mounted hd_video blank_canvas))))
      (state (mounted hd_video blank_canvas))
  /\ state (togglePlayPause (togglePlayPause (mounted hd_video blank_canvas)))
     = state (mounted hd_video blank_canvas).
Proof.
  apply (proj2 (play_button (mounted hd_video blank_canvas)) hd_video);
    [reflexivity|discriminate].
Defined.

(** X9: when playback ends the component stops playing, the video is
    rewound to time 0, the frame text is the one a single conversion of the
    rewound video gives, and no animation frame stays queued. *)
Theorem playback_ended (v : Video) (c : Canvas) (es : list event) (v0 : Video) :
  videoRef (run (mounted v c) es) = Some v0 ->
  let w := run (mounted v c) es in
  let rewound :=
    with_video (set_currentTime 0 v0) (with_state (setIsPlaying false (state w)) w) in
  isPlaying (state (step w Ended)) = false
  /\ pending (step w Ended) = []
  /\ state (step w Ended) = state (convertToAscii rewound)
  /\ exists v', videoRef (step w Ended) = Some v' /\ currentTime v' = 0.
Proof.
  intros Hv. cbv zeta. set (w := run (mounted v c) es) in *.
  set (rewound := with_video (set_currentTime 0 v0)
                    (with_state (setIsPlaying false (state w)) w)).
  assert (Hstep : step w Ended = commit (state w) (convertToAscii rewound)).
  { unfold step. cbn [handle]. unfold handleVideoEnded. cbv zeta.
    cbn [videoRef with_state]. rewrite Hv. reflexivity. }
  assert (Hs : state (step w Ended) = state (convertToAscii rewound)).
  { rewrite Hstep. apply state_commit. }
  assert (Hplay : isPlaying (state (step w Ended)) = false).
  { rewrite Hs. destruct (convertToAscii_frame rewound) as [text ->]. reflexivity. }
  destruct (step_ok w Ended (run_ok es (mounted v c) (mounted_ok v c))) as [_ [_ Hidle]].
  split; [exact Hplay|]. split; [exact (Hidle Hplay)|]. split; [exact Hs|].
  rewrite Hstep. unfold commit.
  assert (Hvr : videoRef (convertToAscii rewound) = Some (set_currentTime 0 v0)).
  { rewrite convertToAscii_videoRef. reflexivity. }
  destruct (_ && _).
  - eexists. split; [exact Hvr|reflexivity].
  - unfold effect, effect_cleanup.
    set (w1 := cancel_current (convertToAscii rewound)).
    assert (Hv1 : videoRef w1 = Some (set_currentTime 0 v0)).
    { unfold w1, cancel_current.
      destruct (animationFrameId _) as [i|]; [|exact Hvr].
      destruct (i =? 0); exact Hvr. }
    destruct (isPlaying (state w1)).
    + unfold video_play. rewrite Hv1. eexists. split; reflexivity.
    + unfold video_pause. rewrite Hv1.
      unfold cancel_current.
      destruct (animationFrameId _) as [i|]; [destruct (i =? 0)|];
        eexists; split; reflexivity.
Qed.

Lemma playback_ended_witness :
  (videoRef (run (mounted hd_video blank_canvas)
               [ResolutionMoved 50; PlayPauseClicked; AnimationFrame 1])
   = Some (set_paused false hd_video)
   /\ isPlaying (state (run (mounted hd_video blank_canvas)
                          [ResolutionMoved 50; PlayPauseClicked; AnimationFrame 1])) = true
   /\ pending (run (mounted hd_video blank_canvas)
                 [ResolutionMoved 50; PlayPauseClicked; AnimationFrame 1]) = [2])
  /\ isPlaying (state (step (run (mounted hd_video blank_canvas)
                               [ResolutionMoved 50; PlayPauseClicked; AnimationFrame 1])
                         Ended)) = false
  /\ pending (step (run (mounted hd_video blank_canvas)
                      [ResolutionMoved 50; PlayPauseClicked; AnimationFrame 1])
                Ended) = []
  /\ exists v',
       videoRef (step (run (mounted hd_video blank_canvas)
                         [ResolutionMoved 50; PlayPauseClicked; AnimationFrame 1])
                   Ended) = Some v'
       /\ currentTime v' = 0.
Proof.
  assert (H1 : videoRef (run (mounted hd_video blank_canvas)
                           [ResolutionMoved 50; PlayPauseClicked; AnimationFrame 1])
               = Some (set_paused false hd_video)) by (vm_compute; reflexivity).
  assert (H2 : isPlaying (state (run (mounted hd_video blank_canvas)
                                   [ResolutionMoved 50; PlayPauseClicked; AnimationFrame 1]))
               = true) by (vm_compute; reflexivity).
  assert (H3 : pending (run (mounted hd_video blank_canvas)
                          [ResolutionMoved 50; PlayPauseClicked; AnimationFrame 1]) = [2])
    by (vm_compute; reflexivity).
  pose proof (playback_ended hd_video blank_canvas
                [ResolutionMoved 50; PlayPauseClicked; AnimationFrame 1]
                (set_paused false hd_video) H1) as R.
  cbv zeta in R.
  split; [exact (conj H1 (conj H2 H3))|].
  split; [exact (proj1 R)|]. split; [exact (proj1 (proj2 R))|].
  exact (proj2 (proj2 (proj2 R))).
Defined.

(** X10: choosing a file records its URL and stops playback, with nothing
    left queued; an empty selection changes nothing. *)
Theorem file_chosen (v : Video) (c : Canvas) (es : list event) :
  let w := run (mounted v c) es in
  step w (FileChosen []) = w
  /\ (forall file rest,
         videoSrc (state (step w (FileChosen (file :: rest)))) = Some file
         /\ isPlaying (state (step w (FileChosen (file :: rest)))) = false
         /\ asciiArt (state (step w (FileChosen (file :: rest)))) = asciiArt (state w)
         /\ pending (step w (FileChosen (file :: rest))) = []).
Proof.
  intros w. split.
  - unfold step. cbn [handle fileInput_onChange]. apply commit_same.
  - intros file rest.
    assert (Hs : state (step w (FileChosen (file :: rest)))
                 = setIsPlaying false (setVideoSrc (Some file) (state w))).
    { unfold step. rewrite state_commit. reflexivity. }
    rewrite Hs. repeat split.
    destruct (step_ok w (FileChosen (file :: rest))
                (run_ok es (mounted v c) (mounted_ok v c))) as [_ [_ Hidle]].
    apply Hidle. rewrite Hs. reflexivity.
Qed.

(** X11: a conversion cycle changes the frame text, the size of the canvas
    and the console, and nothing else: not the source, the play state, the
    resolution, the recorded dimensions, the video element or the queue. *)
Theorem conversion_footprint (w : World) :
  videoSrc (state (convertToAscii w)) = videoSrc (state w)
  /\ isPlaying (state (convertToAscii w)) = isPlaying (state w)
  /\ resolution (state (convertToAscii w)) = resolution (state w)
  /\ dimensions (state (convertToAscii w)) = dimensions (state w)
  /\ videoRef (convertToAscii w) = videoRef w
  /\ animationFrameId (convertToAscii w) = animationFrameId w
  /\ pending (convertToAscii w) = pending w
  /\ next_handle (convertToAscii w) = next_handle w.
Proof.
  destruct (convertToAscii_frame w) as [text Hs].
  destruct (convertToAscii_scheduler w) as [H1 [H2 H3]].
  rewrite Hs. repeat split; auto. apply convertToAscii_videoRef.
Qed.

(** X12: with both elements and a context present, a read-back that throws
    is logged once and leaves the state alone, and one that succeeds logs
    nothing. *)
Theorem readback_logging (w : World) (v : Video) (c : Canvas) :
  videoRef w = Some v -> canvasRef w = Some c -> context2d c = true ->
  match getImageData v (to_long (num (resolution (state w))))
          (to_long (canvasHeight v (resolution (state w)))) with
  | Throw _ =>
      console (convertToAscii w) = console w ++ ["Failed to get image data:"%string]
      /\ state (convertToAscii w) = state w
  | Normal _ => console (convertToAscii w) = console w
  end.
Proof.
  intros Hv Hc Hctx. unfold convertToAscii. rewrite Hv, Hc, Hctx. cbn [negb].
  destruct (getImageData _ _ _) as [data|err].
  - destruct (loop_bound _); reflexivity.
  - split; reflexivity.
Qed.

Lemma readback_logging_witness :
  console (convertToAscii (mounted unloaded_video blank_canvas))
  = console (mounted unloaded_video blank_canvas) ++ ["Failed to get image data:"%string]
  /\ state (convertToAscii (mounted unloaded_video blank_canvas))
     = state (mounted unloaded_video blank_canvas).
Proof.
  exact (readback_logging (mounted unloaded_video blank_canvas) unloaded_video
           blank_canvas eq_refl eq_refl eq_refl).
Defined.

(** X13: moving the resolution control never redraws by itself: the frame
    text stays as it was until the next conversion. *)
Theorem resolution_change_keeps_text (w : World) (raw : Z) :
  asciiArt (state (step w (ResolutionMoved raw))) = asciiArt (state w)
  /\ isPlaying (state (step w (ResolutionMoved raw))) = isPlaying (state w).
Proof. unfold step. rewrite state_commit. split; reflexivity. Qed.

(** X14: when the metadata is loaded the native size is recorded and the
    first frame is converted at once, without pressing play. *)
Theorem metadata_loaded (w : World) (v : Video) :
  videoRef w = Some v ->
  dimensions (state (step w LoadedMetadata)) = (videoWidth v, videoHeight v)
  /\ asciiArt (state (step w LoadedMetadata)) = asciiArt (state (convertToAscii w))
  /\ isPlaying (state (step w LoadedMetadata)) = isPlaying (state w).
Proof.
  intros Hv. unfold step. rewrite state_commit. cbn [handle].
  unfold handleVideoLoaded. rewrite Hv.
  set (w' := with_state (setDimensions (videoWidth v, videoHeight v) (state w)) w).
  destruct (convertToAscii_frame w') as [text Hs].
  split; [now rewrite Hs|]. split; [|now rewrite Hs].
  destruct (canvasRef w) as [c|] eqn:Hc.
  2:{ unfold convertToAscii. cbn [videoRef canvasRef w' with_state]. now rewrite Hv, Hc. }
  destruct (context2d c) eqn:Hctx.
  2:{ unfold convertToAscii. cbn [videoRef canvasRef w' with_state].
      now rewrite Hv, Hc, Hctx. }
  destruct (convertToAscii_outcome w v c Hv Hc Hctx) as [E1 _].
  destruct (convertToAscii_outcome w' v c Hv Hc Hctx) as [E2 _].
  rewrite E1, E2. cbn [w' with_state state setDimensions resolution].
  destruct (conversion_outcome v (resolution (state w))); reflexivity.
Qed.

Lemma metadata_loaded_witness :
  dimensions (state (step (mounted hd_video blank_canvas) LoadedMetadata))
  = (videoWidth hd_video, videoHeight hd_video)
  /\ asciiArt (state (step (mounted hd_video blank_canvas) LoadedMetadata))
     = asciiArt (state (convertToAscii (mounted hd_video blank_canvas)))
  /\ isPlaying (state (step (mounted hd_video blank_canvas) LoadedMetadata))
     = isPlaying (state (mounted hd_video blank_canvas)).
Proof. exact (metadata_loaded (mounted hd_video blank_canvas) hd_video eq_refl). Defined.

(** X15: the row loop is entered only with a finite bound: when the
    read-back returns, the derived height is a finite number, so the cycle
    terminates; an infinite height (a source of width 0) makes the
    read-back throw instead. *)
Theorem cycle_terminates (v : Video) (W : Z) (data : list Z) :
  getImageData v (to_long (num W)) (to_long (canvasHeight v W)) = Normal data ->
  exists h, truncate (canvasHeight v W) = Some h
            /\ loop_bound (canvasHeight v W) = Some (Z.to_nat h).
Proof.
  intros Hd. destruct (getImageData_Normal _ _ _ _ Hd) as [h [Ht _]].
  exists h. split; [exact Ht|]. exact (loop_bound_truncate _ _ Ht).
Qed.

Lemma cycle_terminates_witness :
  getImageData hd_video (to_long (num 50)) (to_long (canvasHeight hd_video 50))
  = solid_frame 128 50 14
  /\ exists h, truncate (canvasHeight hd_video 50) = Some h
               /\ loop_bound (canvasHeight hd_video 50) = Some (Z.to_nat h).
Proof.
  assert (H : getImageData hd_video (to_long (num 50)) (to_long (canvasHeight hd_video 50))
              = solid_frame 128 50 14) by reflexivity.
  split; [exact H|]. exact (cycle_terminates hd_video 50 _ H).
Defined.

(** X16: a cycle that reads pixels back replaces the frame text as a whole:
    the new text is a function of the source frame and the width only,
    whatever the text, the canvas size or the rest of the world were. *)
Theorem text_fully_replaced (w w' : World) (v : Video) (c c' : Canvas) (data : list Z) :
  videoRef w = Some v -> videoRef w' = Some v ->
  canvasRef w = Some c -> canvasRef w' = Some c' ->
  context2d c = true -> context2d c' = true ->
  resolution (state w') = resolution (state w) ->
  getImageData v (to_long (num (resolution (state w))))
    (to_long (canvasHeight v (resolution (state w)))) = Normal data ->
  asciiArt (state (convertToAscii w')) = asciiArt (state (convertToAscii w)).
Proof.
  intros Hv Hv' Hc Hc' Hctx Hctx' Hres Hd.
  destruct (convertToAscii_converts w v c data Hv Hc Hctx Hd) as [h [Ht [_ ->]]].
  rewrite <- Hres in Hd, Ht.
  destruct (convertToAscii_converts w' v c' data Hv' Hc' Hctx' Hd) as [h' [Ht' [_ ->]]].
  assert (h' = h) by congruence. subst h'. rewrite Hres. reflexivity.
Qed.

Lemma text_fully_replaced_witness :
  asciiArt (state (convertToAscii (convertToAscii narrow_world)))
  = asciiArt (state (convertToAscii narrow_world)).
Proof.
  assert (Hd : getImageData hd_video
       (to_long (num (resolution (state narrow_world))))
       (to_long (canvasHeight hd_video (resolution (state narrow_world))))
     = solid_frame 128 50 14) by reflexivity.
  pose proof (proj2 (convertToAscii_outcome narrow_world hd_video blank_canvas
                       eq_refl eq_refl eq_refl)) as Hc'.
  exact (text_fully_replaced narrow_world (convertToAscii narrow_world) hd_video
           blank_canvas _ _ eq_refl
           (eq_trans (convertToAscii_videoRef narrow_world) eq_refl)
           eq_refl Hc' eq_refl eq_refl (resolution_convertToAscii narrow_world) Hd).
Defined.
